(** * A disk-resident B+ tree of (key, value) pairs: model and verification

    The development follows [src/BPlusTree/bplus.h] (class
    [dark::b_plus::tree]) and the driver that instantiates it.  Blocks are
    kept in a finite map from block index to node image, block 0 being the
    root that the tree object holds in memory; a visitor is the index of
    the block it points at, so two visitors of one block alias. *)

From Stdlib Require Import ZArith Lia List Bool.
From stdpp Require Import base tactics option list gmap.

Local Open Scope Z_scope.

(** ** Outcomes of a run *)

(** A run either returns, or stops on an exhausted block index space, or
    has not finished within the number of steps it was given. *)
Inductive result (A : Type) : Type :=
| Ok (a : A)
| CapacityExhausted
| OutOfFuel.
Arguments Ok {A} a.
Arguments CapacityExhausted {A}.
Arguments OutOfFuel {A}.

Definition rbind {A B : Type} (m : result A) (k : A -> result B) : result B :=
  match m with
  | Ok a => k a
  | CapacityExhausted => CapacityExhausted
  | OutOfFuel => OutOfFuel
  end.

Global Instance result_ret : MRet result := fun A a => Ok a.
Global Instance result_bind : MBind result := fun A B k m => rbind m k.

(** ** Machine integers *)

(** [int] arithmetic of the source: 32 bits, two's complement. *)
Definition int_wrap (z : Z) : Z := (z + 2 ^ 31) mod 2 ^ 32 - 2 ^ 31.

(** ** Headers *)

(** Modelled from the spec: [header] and [node_type] are declared in
    file_manager.h, which is not among the sources.  A header is a packed
    block index and a count; the kind of the block lives in the sign of
    [state]: a leaf (OUTER) stores the complement of its index. *)
Record header : Type := Header { state : Z; count : Z }.

Inductive node_type : Type := OUTER | INNER.

Definition node_type_of_bool (b : bool) : node_type := if b then INNER else OUTER.

Definition is_inner (h : header) : bool := 0 <=? state h.

Definition real_index (h : header) : Z :=
  if state h <? 0 then Z.lnot (state h) else state h.

Definition pack_index (index : Z) (flag : node_type) : Z :=
  match flag with INNER => index | OUTER => Z.lnot index end.

Definition set_index (h : header) (index : Z) (flag : node_type) : header :=
  Header (pack_index index flag) (count h).

(** Maximum node number, the "no next leaf" mark. *)
Definition MAXN_SIZE : Z := 1919810.

(** ** Instantiations of the class template *)

Record tree_params : Type := TreeParams {
  TABLE_SIZE : Z;
  CACHE_SIZE : Z;
  BLOCK_SIZE : Z;
  AMORT_SIZE : Z;
  MERGE_SIZE : Z
}.

(** [tree <key_t, T, TABLE_SIZE, CACHE_SIZE, BLOCK_SIZE>] with the two
    thresholds left to their defaults. *)
Definition tree_template (table cache block : Z) : tree_params :=
  TreeParams table cache block (block * 2 ÷ 3) (block ÷ 3).

(** The instance of [main]: [tree <dark::string<68>,int,4095,50,101>]. *)
Definition main_tree : tree_params := tree_template 4095 50 101.

(** Modelled from the spec: the comparison functors [Compare <key_t>] and
    [Compare <T>] are not among the sources; they return a negative, zero
    or positive [int] as the first argument is below, equal to or above
    the second.  An instantiation of the template gives the two types with
    their comparisons and the sizes; [key0] and [val0] are the zero-filled
    key and value of a fresh block. *)
Class Instantiation (key_t T : Type) : Type := {
  k_comp : key_t -> key_t -> Z;
  v_comp : T -> T -> Z;
  key0 : key_t;
  val0 : T;
  P : tree_params
}.

Section Tree.

Context {key_t T : Type} `{Inst : Instantiation key_t T}.

(** Trivial key-value pair class. *)
Record value_pair : Type := ValuePair { key : key_t; val : T }.

(** Tuple of value and index and count. *)
Record value_tuple : Type := ValueTuple { head : header; v : value_pair }.

Definition tuple0 : value_tuple := ValueTuple (Header 0 0) (ValuePair key0 val0).

(** The three-way comparison of pairs that [binary_search] performs. *)
Definition p_comp (a b : value_pair) : Z :=
  let cmp := k_comp (key a) (key b) in
  if cmp =? 0 then v_comp (val a) (val b) else cmp.

(** ** Entry arrays *)

Definition get (d : list value_tuple) (i : Z) : value_tuple :=
  nth (Z.to_nat i) d tuple0.

Definition set (d : list value_tuple) (i : Z) (e : value_tuple) : list value_tuple :=
  <[Z.to_nat i := e]> d.

(** [mmove (dst + doff) (src + soff) cnt]: the source range is read
    before the destination is written, as memmove does. *)
Definition mmove (dst : list value_tuple) (doff : Z) (src : list value_tuple) (soff cnt : Z)
  : list value_tuple :=
  take (Z.to_nat doff) dst
  ++ take (Z.to_nat cnt) (drop (Z.to_nat soff) src)
  ++ drop (Z.to_nat doff + Z.to_nat cnt) dst.

(** ** Searches inside one node *)

Fixpoint binary_search_loop (fuel : nat) (d : list value_tuple) (k : key_t) (x : T)
    (l r : Z) : result Z :=
  if l =? r then Ok l else
  match fuel with
  | O => OutOfFuel
  | S fuel =>
      let mid := Z.shiftr (int_wrap (l + r)) 1 in
      let cmp := k_comp k (key (v (get d mid))) in
      let cmp := if cmp =? 0 then v_comp x (val (v (get d mid))) else cmp in
      if 0 <? cmp then binary_search_loop fuel d k x (mid + 1) r
      else if cmp <? 0 then binary_search_loop fuel d k x l mid
      else Ok (Z.lnot mid)
  end.

(** Search in [l,r) for ans location, where data[ans - 1] < val < data[ans].
    The loop runs at most [r - l] times when [l <= r]. *)
Definition binary_search (d : list value_tuple) (k : key_t) (x : T) (l r : Z) : result Z :=
  binary_search_loop (Z.to_nat (r - l)) d k x l r.

Fixpoint lower_bound_loop (fuel : nat) (d : list value_tuple) (k : key_t) (l r : Z)
  : result Z :=
  if l =? r then Ok l else
  match fuel with
  | O => OutOfFuel
  | S fuel =>
      let mid := Z.shiftr (int_wrap (l + r)) 1 in
      if 0 <? k_comp k (key (v (get d mid)))
      then lower_bound_loop fuel d k (mid + 1) r
      else lower_bound_loop fuel d k l mid
  end.

(** Find the first in [l,r) no smaller than key. *)
Definition lower_bound (d : list value_tuple) (k : key_t) (l r : Z) : result Z :=
  lower_bound_loop (Z.to_nat (r - l)) d k l r.

Fixpoint upper_bound_loop (fuel : nat) (d : list value_tuple) (k : key_t) (l r : Z)
  : result Z :=
  if l =? r then Ok l else
  match fuel with
  | O => OutOfFuel
  | S fuel =>
      let mid := Z.shiftr (int_wrap (l + r)) 1 in
      if 0 <=? k_comp k (key (v (get d mid)))
      then upper_bound_loop fuel d k (mid + 1) r
      else upper_bound_loop fuel d k l mid
  end.

(** Find the first in [l,r) larger than key. *)
Definition upper_bound (d : list value_tuple) (k : key_t) (l r : Z) : result Z :=
  upper_bound_loop (Z.to_nat (r - l)) d k l r.


(** ** Nodes and the tree object *)

(** Index node trivial class: a header (the node's own kind and, packed
    with it, the index of the next node of its level) and
    [BLOCK_SIZE + 1] entries. *)
Record node : Type := Node { hdr : header; data : list value_tuple }.

Definition with_count (n : node) (c : Z) : node :=
  Node (Header (state (hdr n)) c) (data n).
Definition with_state (n : node) (s : Z) : node :=
  Node (Header s (count (hdr n))) (data n).
Definition with_data (n : node) (d : list value_tuple) : node :=
  Node (hdr n) d.

Definition next (n : node) : Z := real_index (hdr n).

Definition set_pair (d : list value_tuple) (i : Z) (p : value_pair) : list value_tuple :=
  set d i (ValueTuple (head (get d i)) p).
Definition set_head (d : list value_tuple) (i : Z) (h : header) : list value_tuple :=
  set d i (ValueTuple h (v (get d i))).
Definition set_head_count (d : list value_tuple) (i : Z) (c : Z) : list value_tuple :=
  set_head d i (Header (state (head (get d i))) c).
Definition set_head_state (d : list value_tuple) (i : Z) (s : Z) : list value_tuple :=
  set_head d i (Header s (count (head (get d i)))).

Definition zero_node : node :=
  Node (Header 0 0) (replicate (Z.to_nat (BLOCK_SIZE P + 1)) tuple0).

Global Instance node_inhabited : Inhabited node := populate zero_node.

(** The tree object.  [root] is the in-memory image of block 0, [file]
    the node images of the other blocks, [cache_pointer] the visitor the
    recursive routines hand to their caller.

    Modelled from the spec: the block file and its page cache
    (file_manager.h) are not among the sources.  Of them the model keeps
    the free-block list, the index of the next block to append and the
    set of blocks marked dirty. *)
Record tree : Type := Tree {
  root : node;
  file : gmap Z node;
  cache_pointer : Z;
  free_list : list Z;
  next_block : Z;
  dirty : gset Z
}.

Definition deref (t : tree) (x : Z) : node :=
  if x =? 0 then root t else file t !!! x.

Definition store (t : tree) (x : Z) (n : node) : tree :=
  if x =? 0
  then Tree n (file t) (cache_pointer t) (free_list t) (next_block t) (dirty t)
  else Tree (root t) (<[x := n]> (file t)) (cache_pointer t) (free_list t)
            (next_block t) (dirty t).

(** One write through a visitor. *)
Definition upd (t : tree) (x : Z) (f : node -> node) : tree :=
  store t x (f (deref t x)).

Definition set_cache_pointer (t : tree) (x : Z) : tree :=
  Tree (root t) (file t) x (free_list t) (next_block t) (dirty t).

(** [visitor::modify] and [file_state::modify]. *)
Definition modify (t : tree) (x : Z) : tree :=
  Tree (root t) (file t) (cache_pointer t) (free_list t) (next_block t)
       ({[x]} ∪ dirty t).

(** Get pointer for node at x position. *)
Definition get_pointer (h : header) : Z := real_index h.

(** Modelled from the spec: [allocate] pops the free list or appends a
    block, and hands out a zeroed block marked dirty; block indices stay
    below [MAXN_SIZE], past which the index space is exhausted. *)
Definition allocate (t : tree) : result (Z * tree) :=
  match free_list t with
  | i :: rest =>
      Ok (i, Tree (root t) (<[i := zero_node]> (file t)) (cache_pointer t) rest
                  (next_block t) ({[i]} ∪ dirty t))
  | [] =>
      if next_block t <? MAXN_SIZE
      then Ok (next_block t,
               Tree (root t) (<[next_block t := zero_node]> (file t))
                    (cache_pointer t) [] (next_block t + 1)
                    ({[next_block t]} ∪ dirty t))
      else CapacityExhausted
  end.

(** Modelled from the spec: [recycle] detaches the block's slot without
    write-back and pushes the block on the free list. *)
Definition recycle (t : tree) (x : Z) : tree :=
  Tree (root t) (file t) (cache_pointer t) (x :: free_list t) (next_block t)
       (dirty t ∖ {[x]}).

(** The tree a fresh file is opened as. *)
Definition init : tree :=
  Tree (Node (set_index (Header 0 0) 0 INNER) (data zero_node)) ∅ 0 [] 1 {[0]}.

(** Return whether the tree is empty. *)
Definition empty (t : tree) : bool := count (hdr (root t)) =? 0.

(** A [header &]: the root node itself, or the header of entry [x] of
    the node in block [p]. *)
Inductive href : Type :=
| HRoot
| HEntry (p x : Z).

Definition read_head (t : tree) (r : href) : header :=
  match r with
  | HRoot => hdr (root t)
  | HEntry p x => head (get (data (deref t p)) x)
  end.

Definition write_head_count (t : tree) (r : href) (c : Z) : tree :=
  match r with
  | HRoot => upd t 0 (fun n => with_count n c)
  | HEntry p x => upd t p (fun n => with_data n (set_head_count (data n) x c))
  end.

(** ** Rebalancing *)

(** Insert into an empty tree. *)
Definition insert_root (t : tree) (k : key_t) (x : T) : result tree :=
  '(pointer, t) ← allocate t;
  let t := modify t 0 in
  let t := upd t 0 (fun r => with_count r 1) in
  let t := upd t 0 (fun r => with_data r
             (set (data r) 0 (ValueTuple (Header (Z.lnot pointer) 1) (ValuePair k x)))) in
  let t := modify t pointer in
  let t := upd t pointer (fun n => Node (set_index (hdr n) MAXN_SIZE OUTER) (data n)) in
  let t := upd t pointer (fun n => with_count n 1) in
  let t := upd t pointer (fun n => with_data n (set_pair (data n) 0 (ValuePair k x))) in
  Ok t.

(** Split the root node *)
Definition split_root (t : tree) : result tree :=
  '(prev, t) ← allocate t;
  '(next, t) ← allocate t;
  let t := upd t prev (fun n => with_state n next) in
  let t := upd t next (fun n => with_state n MAXN_SIZE) in
  let t := upd t prev (fun n => with_count n (Z.shiftr (count (hdr (root t))) 1)) in
  let t := upd t next (fun n => with_count n (Z.shiftr (count (hdr (root t)) + 1) 1)) in
  let t := upd t prev (fun n =>
             with_data n (mmove (data n) 0 (data (root t)) 0 (count (hdr n)))) in
  let t := upd t next (fun n =>
             with_data n (mmove (data n) 0 (data (root t))
                                (count (hdr (deref t prev))) (count (hdr n)))) in
  let t := upd t 0 (fun r => with_count r 2) in
  let t := upd t 0 (fun r => with_data r
             (set_head (data r) 0 (Header prev (count (hdr (deref t prev)))))) in
  let t := upd t 0 (fun r => with_data r
             (set_head (data r) 1 (Header next (count (hdr (deref t next)))))) in
  let t := upd t 0 (fun r => with_data r
             (set_pair (data r) 1 (v (get (data (deref t next)) 0)))) in
  Ok t.

(** Split at pointer's x-th son.  Note that pointer->count remains
    unchanged. *)
Definition split_node (t : tree) (pointer x : Z) : result tree :=
  let prev := cache_pointer t in
  '(next, t) ← allocate t;
  let t := upd t next (fun n => with_state n (state (hdr (deref t prev)))) in
  let t := upd t prev (fun n =>
             Node (set_index (hdr n) next (node_type_of_bool (is_inner (hdr n)))) (data n)) in
  let t := upd t next (fun n => with_count n (Z.shiftr (count (hdr (deref t prev))) 1)) in
  let t := upd t prev (fun n => with_count n (count (hdr n) - count (hdr (deref t next)))) in
  let t := upd t pointer (fun n =>
             with_data n (set_head_count (data n) x (count (hdr (deref t prev))))) in
  let t := upd t next (fun n =>
             with_data n (mmove (data n) 0 (data (deref t prev))
                                (count (hdr (deref t prev))) (count (hdr n)))) in
  let x := x + 1 in
  let t := if x <? count (hdr (deref t pointer))
           then upd t pointer (fun n =>
                  with_data n (mmove (data n) (x + 1) (data n) x (count (hdr n) - x)))
           else t in
  let t := upd t pointer (fun n =>
             with_data n (set_pair (data n) x (v (get (data (deref t next)) 0)))) in
  let t := upd t pointer (fun n =>
             with_data n (set_head_count (data n) x (count (hdr (deref t next))))) in
  let t := upd t pointer (fun n =>
             with_data n (set_head_state (data n) x (state (hdr (deref t prev))))) in
  Ok t.

(** Merge 2 nodes into previous one node and recycle the second one. *)
Definition merge_node (t : tree) (prev next : Z) : tree :=
  let t := modify t prev in
  let t := upd t prev (fun n => with_state n (state (hdr (deref t next)))) in
  let t := upd t prev (fun n =>
             with_data n (mmove (data n) (count (hdr n)) (data (deref t next)) 0
                                (count (hdr (deref t next))))) in
  let t := upd t prev (fun n => with_count n (count (hdr n) + count (hdr (deref t next)))) in
  recycle t next.

(** Merge root's 2 sons. *)
Definition merge_root (t : tree) (x : Z) : tree :=
  let prev := if x =? 0 then cache_pointer t
              else get_pointer (head (get (data (root t)) 0)) in
  let next := if x =? 0 then get_pointer (head (get (data (root t)) 1))
              else cache_pointer t in
  let t := upd t 0 (fun r =>
             with_count r (count (hdr (deref t prev)) + count (hdr (deref t next)) + 1)) in
  let t := upd t 0 (fun r =>
             with_data r (mmove (data r) 0 (data (deref t prev)) 0
                                (count (hdr (deref t prev))))) in
  let t := upd t 0 (fun r =>
             with_data r (mmove (data r) (count (hdr (deref t prev)))
                                (data (deref t next)) 0 (count (hdr (deref t next))))) in
  let t := recycle t prev in
  recycle t next.

(** Try merge at pointer's x-th son.  Note that pointer->count remains
    unchanged. *)
Definition erase_merge (t : tree) (pointer x : Z) : tree :=
  if (count (hdr (deref t pointer)) =? 2) && is_inner (hdr (deref t (cache_pointer t)))
  then merge_root t x
  else if count (hdr (deref t pointer)) =? 1 then
    if negb (count (hdr (deref t (cache_pointer t))) =? 0)
    then upd t pointer (fun n => with_count n (count (hdr n) + 1))
    else recycle t (cache_pointer t)
  else
    let d := data (deref t pointer) in
    let flag := negb (x =? count (hdr (deref t pointer)) - 1) in
    let flag := if flag && negb (x =? 0)
                then count (head (get d (x + 1))) <? count (head (get d (x - 1)))
                else flag in
    if flag then
      let prev := cache_pointer t in
      let next := get_pointer (head (get d (x + 1))) in
      let t := merge_node t prev next in
      let t := upd t pointer (fun n =>
                 with_data n (mmove (data n) (x + 1) (data n) (x + 2)
                                    (count (hdr n) - x - 2))) in
      upd t pointer (fun n =>
        with_data n (set_head_count (data n) x (count (hdr (deref t prev)))))
    else
      let prev := get_pointer (head (get d (x - 1))) in
      let next := cache_pointer t in
      let t := merge_node t prev next in
      let t := upd t pointer (fun n =>
                 with_data n (mmove (data n) x (data n) (x + 1)
                                    (count (hdr n) - x - 1))) in
      upd t pointer (fun n =>
        with_data n (set_head_count (data n) (x - 1) (count (hdr (deref t prev))))).

(** Amortize part of the prev node to the next node. *)
Definition amortize_prev (t : tree) (prev next : Z) : tree :=
  let t := modify t prev in
  let t := modify t next in
  let delta := Z.shiftr (count (hdr (deref t prev)) - count (hdr (deref t next))) 1 in
  let t := upd t next (fun n =>
             with_data n (mmove (data n) delta (data n) 0 (count (hdr n)))) in
  let t := upd t prev (fun n => with_count n (count (hdr n) - delta)) in
  let t := upd t next (fun n => with_count n (count (hdr n) + delta)) in
  upd t next (fun n =>
    with_data n (mmove (data n) 0 (data (deref t prev))
                       (count (hdr (deref t prev))) delta)).

(** Amortize part of the next node to the prev node. *)
Definition amortize_next (t : tree) (prev next : Z) : tree :=
  let t := modify t prev in
  let t := modify t next in
  let delta := Z.shiftr (count (hdr (deref t next)) - count (hdr (deref t prev))) 1 in
  let t := upd t prev (fun n =>
             with_data n (mmove (data n) (count (hdr n)) (data (deref t next)) 0 delta)) in
  let t := upd t prev (fun n => with_count n (count (hdr n) + delta)) in
  let t := upd t next (fun n => with_count n (count (hdr n) - delta)) in
  upd t next (fun n =>
    with_data n (mmove (data n) 0 (data n) delta (count (hdr n)))).

(** The two flags of an amortization and the choice between them when
    both are set: [flag[left > right] = false]. *)
Definition settle_flags (flag0 flag1 : bool) (left right : Z) : bool * bool :=
  if flag0 && flag1
  then if right <? left then (flag0, false) else (false, flag1)
  else (flag0, flag1).

(** Tries to amortize when inserting. *)
Definition insert_amortize (t : tree) (pointer x : Z) : bool * tree :=
  let d := data (deref t pointer) in
  let flag0 := negb (x =? count (hdr (deref t pointer)) - 1)
               && (count (head (get d (x + 1))) <? AMORT_SIZE P) in
  let flag1 := negb (x =? 0) && (count (head (get d (x - 1))) <? AMORT_SIZE P) in
  let '(flag0, flag1) :=
    settle_flags flag0 flag1 (count (head (get d (x - 1)))) (count (head (get d (x + 1)))) in
  if flag1 then
    let prev := get_pointer (head (get d (x - 1))) in
    let next := cache_pointer t in
    let t := amortize_next t prev next in
    let t := upd t pointer (fun n =>
               with_data n (set_head_count (data n) (x - 1) (count (hdr (deref t prev))))) in
    let t := upd t pointer (fun n =>
               with_data n (set_head_count (data n) x (count (hdr (deref t next))))) in
    let t := upd t pointer (fun n =>
               with_data n (set_pair (data n) x (v (get (data (deref t next)) 0)))) in
    (true, t)
  else if flag0 then
    let prev := cache_pointer t in
    let next := get_pointer (head (get d (x + 1))) in
    let t := amortize_prev t prev next in
    let t := upd t pointer (fun n =>
               with_data n (set_head_count (data n) x (count (hdr (deref t prev))))) in
    let t := upd t pointer (fun n =>
               with_data n (set_head_count (data n) (x + 1) (count (hdr (deref t next))))) in
    let t := upd t pointer (fun n =>
               with_data n (set_pair (data n) (x + 1) (v (get (data (deref t next)) 0)))) in
    (true, t)
  else (false, t).

(** Tries to amortize when erasing. *)
Definition erase_amortize (t : tree) (pointer x : Z) : bool * tree :=
  let d := data (deref t pointer) in
  let flag0 := negb (x =? 0) && (AMORT_SIZE P <=? count (head (get d (x - 1)))) in
  let flag1 := negb (x =? count (hdr (deref t pointer)) - 1)
               && (AMORT_SIZE P <=? count (head (get d (x + 1)))) in
  let '(flag0, flag1) :=
    settle_flags flag0 flag1 (count (head (get d (x - 1)))) (count (head (get d (x + 1)))) in
  if flag0 then
    let prev := get_pointer (head (get d (x - 1))) in
    let next := cache_pointer t in
    let t := amortize_prev t prev next in
    let t := upd t pointer (fun n =>
               with_data n (set_head_count (data n) (x - 1) (count (hdr (deref t prev))))) in
    let t := upd t pointer (fun n =>
               with_data n (set_head_count (data n) x (count (hdr (deref t next))))) in
    let t := upd t pointer (fun n =>
               with_data n (set_pair (data n) x (v (get (data (deref t next)) 0)))) in
    (true, t)
  else if flag1 then
    let prev := cache_pointer t in
    let next := get_pointer (head (get d (x + 1))) in
    let t := amortize_next t prev next in
    let t := upd t pointer (fun n =>
               with_data n (set_head_count (data n) x (count (hdr (deref t prev))))) in
    let t := upd t pointer (fun n =>
               with_data n (set_head_count (data n) (x + 1) (count (hdr (deref t next))))) in
    let t := upd t pointer (fun n =>
               with_data n (set_pair (data n) (x + 1) (v (get (data (deref t next)) 0)))) in
    (true, t)
  else (false, t).


(** ** Insertion *)

(** Insert at an outer node. *)
Definition insert_outer (t : tree) (r : href) (k : key_t) (x : T) : result (bool * tree) :=
  let pointer := get_pointer (read_head t r) in
  let cnt := count (read_head t r) in
  pos ← binary_search (data (deref t pointer)) k x 0 cnt;
  if pos <? 0 then Ok (false, t) else
  let t := modify t pointer in
  let t := upd t pointer (fun n =>
             with_data n (mmove (data n) (pos + 1) (data n) pos (cnt - pos))) in
  let t := upd t pointer (fun n =>
             with_data n (set_pair (data n) pos (ValuePair k x))) in
  let t := upd t pointer (fun n => with_count n (count (hdr n) + 1)) in
  let t := write_head_count t r (count (hdr (deref t pointer))) in
  Ok (true, set_cache_pointer t pointer).

(** Insert at an inner node.  Returns true when the node behind [r]
    gained an entry, so that its father has to look at it. *)
Fixpoint insert_inner (fuel : nat) (t : tree) (r : href) (k : key_t) (x : T)
  : result (bool * tree) :=
  match fuel with
  | O => OutOfFuel
  | S fuel =>
      if negb (is_inner (read_head t r)) then insert_outer t r k x else
      let pointer := get_pointer (read_head t r) in
      pos ← binary_search (data (deref t pointer)) k x 0 (count (read_head t r));
      if pos <? 0 then Ok (false, t) else
      let '(pos, t) :=
        if 0 <? pos then (pos - 1, t)
        else (pos, upd (modify t pointer) pointer (fun n =>
                     with_data n (set_pair (data n) 0 (ValuePair k x)))) in
      '(changed, t) ← insert_inner fuel t (HEntry pointer pos) k x;
      if negb changed then Ok (false, t) else
      let t := modify t pointer in
      if count (hdr (deref t (cache_pointer t))) <=? BLOCK_SIZE P then Ok (false, t) else
      let '(done, t) := insert_amortize t pointer pos in
      if done then Ok (false, t) else
      t ← split_node t pointer pos;
      let t := upd t pointer (fun n => with_count n (count (hdr n) + 1)) in
      let t := write_head_count t r (count (hdr (deref t pointer))) in
      Ok (true, set_cache_pointer t pointer)
  end.

(** Insert a key-value pair into the tree. *)
Definition insert (fuel : nat) (t : tree) (k : key_t) (x : T) : result tree :=
  if empty t then insert_root t k x else
  '(changed, t) ← insert_inner fuel t HRoot k x;
  if changed && (BLOCK_SIZE P <? count (hdr (root t))) then split_root t else Ok t.

(** ** Erasure *)

(** Erase at an outer node. *)
Definition erase_outer (t : tree) (r : href) (k : key_t) (x : T) : result (bool * tree) :=
  let pointer := get_pointer (read_head t r) in
  let cnt := count (read_head t r) in
  pos ← binary_search (data (deref t pointer)) k x 0 cnt;
  let pos := Z.lnot pos in
  if pos <? 0 then Ok (false, t) else
  let t := modify t pointer in
  let t := upd t pointer (fun n =>
             with_data n (mmove (data n) pos (data n) (pos + 1) (cnt - pos - 1))) in
  let t := upd t pointer (fun n => with_count n (count (hdr n) - 1)) in
  let t := write_head_count t r (count (hdr (deref t pointer))) in
  Ok (true, set_cache_pointer t pointer).

(** Erase at an inner node.  Returns true when the father has to look at
    the node behind [r]: it lost an entry, or its smallest pair changed. *)
Fixpoint erase_inner (fuel : nat) (t : tree) (r : href) (k : key_t) (x : T)
  : result (bool * tree) :=
  match fuel with
  | O => OutOfFuel
  | S fuel =>
      if negb (is_inner (read_head t r)) then erase_outer t r k x else
      let pointer := get_pointer (read_head t r) in
      pos ← binary_search (data (deref t pointer)) k x 0 (count (read_head t r));
      if pos =? 0 then Ok (false, t) else
      let '(pos, flag) := if 0 <? pos then (pos - 1, false) else (Z.lnot pos, true) in
      '(changed, t) ← erase_inner fuel t (HEntry pointer pos) k x;
      if negb changed then Ok (false, t) else
      let t := modify t pointer in
      let t := if flag
               then upd t pointer (fun n =>
                      with_data n (set_pair (data n) pos
                                     (v (get (data (deref t (cache_pointer t))) 0))))
               else t in
      if MERGE_SIZE P <? count (hdr (deref t (cache_pointer t)))
      then Ok (flag && (pos =? 0), t) else
      let '(done, t) := erase_amortize t pointer pos in
      if done then Ok (flag && (pos =? 0), t) else
      let t := erase_merge t pointer pos in
      let t := upd t pointer (fun n => with_count n (count (hdr n) - 1)) in
      let t := write_head_count t r (count (hdr (deref t pointer))) in
      Ok (true, set_cache_pointer t pointer)
  end.

(** Erase a key-value pair from the tree. *)
Definition erase (fuel : nat) (t : tree) (k : key_t) (x : T) : result tree :=
  if negb (empty t) then
    '(_, t) ← erase_inner fuel t HRoot k x; Ok t
  else Ok t.

(** ** Queries *)

(** The descent of the three [find]s: [while(head.is_inner())]. *)
Fixpoint find_leaf (fuel : nat) (t : tree) (h : header) (k : key_t)
  : result (header * tree) :=
  if negb (is_inner h) then Ok (h, t) else
  match fuel with
  | O => OutOfFuel
  | S fuel =>
      let pointer := get_pointer h in
      pos ← lower_bound (drop 1 (data (deref t pointer))) k 0 (count h - 1);
      find_leaf fuel t (head (get (data (deref t pointer)) pos)) k
  end.

(** [while(x != cnt)] over one block; the boolean tells that the loop
    left through [return]. *)
Fixpoint scan_block (fuel : nat) (d : list value_tuple) (k : key_t) (func : T -> bool)
    (x cnt : Z) (out : list T) : result (bool * list T) :=
  if x =? cnt then Ok (false, out) else
  match fuel with
  | O => OutOfFuel
  | S fuel =>
      if negb (k_comp k (key (v (get d x))) =? 0) then Ok (true, out) else
      let y := val (v (get d x)) in
      scan_block fuel d k func (x + 1) cnt (if func y then out ++ [y] else out)
  end.

(** [while(pointer->next() != MAXN_SIZE)]: the blocks after the first. *)
Fixpoint scan_chain (fuel : nat) (t : tree) (pointer : Z) (k : key_t) (func : T -> bool)
    (out : list T) : result (list T * tree) :=
  if next (deref t pointer) =? MAXN_SIZE then Ok (out, t) else
  match fuel with
  | O => OutOfFuel
  | S fuel =>
      let pointer := get_pointer (hdr (deref t pointer)) in
      let cnt := count (hdr (deref t pointer)) in
      '(stop, out) ← scan_block (Z.to_nat cnt) (data (deref t pointer)) k func 0 cnt out;
      if (stop : bool) then Ok (out, t) else scan_chain fuel t pointer k func out
  end.

(** Find all value-type binded to key if satisfying compare function. *)
Definition find_if (fuel : nat) (t : tree) (k : key_t) (out : list T) (func : T -> bool)
  : result (list T * tree) :=
  if empty t then Ok (out, t) else
  '(h, t) ← find_leaf fuel t (hdr (root t)) k;
  let pointer := get_pointer h in
  pos ← lower_bound (data (deref t pointer)) k 0 (count h);
  '(stop, out) ← scan_block (Z.to_nat (count h - pos)) (data (deref t pointer)) k func
                            pos (count h) out;
  if (stop : bool) then Ok (out, t) else scan_chain fuel t pointer k func out.

(** Find all value-type binded to key. *)
Definition find (fuel : nat) (t : tree) (k : key_t) (out : list T) : result (list T * tree) :=
  find_if fuel t k out (fun _ => true).

(** Custom iterator: a visitor (none in the end iterator) and an index. *)
Record iterator : Type := Iterator { pointer_of : option Z; index : Z }.

(** End iterator. *)
Definition end_ : iterator := Iterator None (-1).

Definition valid (i : iterator) : bool := negb (index i =? -1).

(** [operator ++]. *)
Definition iterator_next (t : tree) (i : iterator) : iterator :=
  match pointer_of i with
  | None => i
  | Some pointer =>
      let idx := index i + 1 in
      if idx =? count (hdr (deref t pointer)) then
        if next (deref t pointer) =? MAXN_SIZE then Iterator (Some pointer) (-1)
        else Iterator (Some (get_pointer (hdr (deref t pointer)))) 0
      else Iterator (Some pointer) idx
  end.

(** [operator *]. *)
Definition iterator_get (t : tree) (i : iterator) : option value_pair :=
  match pointer_of i with
  | None => None
  | Some pointer => if valid i then Some (v (get (data (deref t pointer)) (index i))) else None
  end.

(** Find the position of a key: the iterator overload of [find]. *)
Definition find_iterator (fuel : nat) (t : tree) (k : key_t) : result (iterator * tree) :=
  if empty t then Ok (end_, t) else
  '(h, t) ← find_leaf fuel t (hdr (root t)) k;
  let pointer := get_pointer h in
  pos ← lower_bound (data (deref t pointer)) k 0 (count h);
  let temp := Iterator (Some pointer) pos in
  if pos =? count h
  then Ok (iterator_next t (Iterator (Some pointer) (index temp - 1)), t)
  else Ok (temp, t).

End Tree.




(** * Specification vocabulary *)

(** ** Lawful instantiations *)

(** What a three-way comparison of a strict total order obeys. *)
Record comparison_laws {A : Type} (cmp : A -> A -> Z) : Prop := {
  cmp_eq : forall a b, cmp a b = 0 <-> a = b;
  cmp_flip : forall a b, cmp a b < 0 <-> 0 < cmp b a;
  cmp_trans : forall a b c, cmp a b < 0 -> cmp b c < 0 -> cmp a c < 0
}.

(** The instantiations the class template accepts: [BLOCK_SIZE >= 10] is
    its static assertion, the size of a node is an [int] (so the block
    size is far below [2^28]), and the two thresholds are the defaults. *)
Class Lawful `(Inst : Instantiation key_t T) : Prop := {
  k_laws : comparison_laws k_comp;
  v_laws : comparison_laws v_comp;
  block_size_min : 10 <= BLOCK_SIZE P;
  block_size_max : BLOCK_SIZE P < 2 ^ 28;
  amort_default : AMORT_SIZE P = BLOCK_SIZE P * 2 ÷ 3;
  merge_default : MERGE_SIZE P = BLOCK_SIZE P ÷ 3
}.

Section Vocabulary.

Context {key_t T : Type} `{Inst : Instantiation key_t T}.

Local Abbreviation value_pair := (@value_pair key_t T).
Local Abbreviation value_tuple := (@value_tuple key_t T).
Local Abbreviation node := (@node key_t T).
Local Abbreviation tree := (@tree key_t T).

(** ** Order on pairs *)

Definition p_lt (a b : value_pair) : Prop := p_comp a b < 0.

(** An upper bound that may be absent. *)
Definition below (a : value_pair) (hi : option value_pair) : Prop :=
  match hi with Some b => p_lt a b | None => True end.

(** The entries of [d] in [l,r) are strictly ascending by (key, value). *)
Definition sorted_range (d : list value_tuple) (l r : Z) : Prop :=
  forall i j, l <= i -> i < j -> j < r -> p_lt (v (get d i)) (v (get d j)).

(** ** The live part of a node *)

Definition items (n : node) : list value_tuple :=
  take (Z.to_nat (count (hdr n))) (data n).

(** ** Sequences of entries

    [seq_ok ok fl es hi nxt]: every entry of [es] is [ok] with respect to
    its successor, of which it sees the smallest pair and the first leaf;
    the last entry sees [hi] and [nxt]. *)
Fixpoint seq_ok (ok : value_tuple -> option value_pair -> Z -> Prop)
    (fl : value_tuple -> Z) (es : list value_tuple)
    (hi : option value_pair) (nxt : Z) : Prop :=
  match es with
  | [] => True
  | e :: rest =>
      ok e (match rest with e' :: _ => Some (v e') | [] => hi end)
           (match rest with e' :: _ => fl e' | [] => nxt end)
      /\ seq_ok ok fl rest hi nxt
  end.

Definition leaf_entry_ok (e : value_tuple) (hi : option value_pair) (nxt : Z) : Prop :=
  below (v e) hi.

(** ** Subtrees, by height *)

(** The leftmost leaf below block [i]. *)
Fixpoint first_leaf (h : nat) (t : tree) (i : Z) : Z :=
  match h with
  | O => i
  | S h' => first_leaf h' t (real_index (head (get (data (deref t i)) 0)))
  end.

(** The blocks of the subtree rooted in block [i], father first. *)
Fixpoint blocks (h : nat) (t : tree) (i : Z) : list Z :=
  i :: match h with
       | O => []
       | S h' => flat_map (fun e => blocks h' t (real_index (head e))) (items (deref t i))
       end.

(** The pairs of the subtree rooted in block [i], left to right. *)
Fixpoint contents (h : nat) (t : tree) (i : Z) : list value_pair :=
  match h with
  | O => map v (items (deref t i))
  | S h' => flat_map (fun e => contents h' t (real_index (head e))) (items (deref t i))
  end.

(** The leaves of the subtree rooted in block [i], left to right. *)
Fixpoint leaves (h : nat) (t : tree) (i : Z) : list Z :=
  match h with
  | O => [i]
  | S h' => flat_map (fun e => leaves h' t (real_index (head e))) (items (deref t i))
  end.

(** [node_ok h t cmin cmax e hi nxt]: entry [e] of a father describes a
    well-formed subtree of height [h]: its header agrees with the block it
    names, its pair is the smallest pair of the subtree, every pair is
    below [hi], the leaves are chained and the last one is followed by
    [nxt]; the block holds between [cmin] and [cmax] entries, the blocks
    below it between [MERGE_SIZE + 1] and [BLOCK_SIZE]. *)
Fixpoint node_ok (h : nat) (t : tree) (cmin cmax : Z) (e : value_tuple)
    (hi : option value_pair) (nxt : Z) {struct h} : Prop :=
  let i := real_index (head e) in
  let n := deref t i in
  0 < i
  /\ is_inner (head e) = is_inner (hdr n)
  /\ count (hdr n) = count (head e)
  /\ cmin <= count (hdr n) <= cmax
  /\ v e = v (get (data n) 0)
  /\ length (data n) = Z.to_nat (BLOCK_SIZE P + 1)
  /\ match h with
     | O => is_inner (hdr n) = false
            /\ next n = nxt
            /\ seq_ok leaf_entry_ok (fun _ => 0) (items n) hi nxt
     | S h' => is_inner (hdr n) = true
            /\ seq_ok (node_ok h' t (MERGE_SIZE P + 1) (BLOCK_SIZE P))
                      (fun e' => first_leaf h' t (real_index (head e')))
                      (items n) hi nxt
     end.

(** The same for the contents of block [i] alone, whatever header names
    it; [ccmin] is the least count of its sons. *)
Definition body_ok (h : nat) (t : tree) (ccmin : Z) (i : Z)
    (hi : option value_pair) (nxt : Z) : Prop :=
  let n := deref t i in
  length (data n) = Z.to_nat (BLOCK_SIZE P + 1)
  /\ match h with
     | O => is_inner (hdr n) = false
            /\ next n = nxt
            /\ seq_ok leaf_entry_ok (fun _ => 0) (items n) hi nxt
     | S h' => is_inner (hdr n) = true
            /\ seq_ok (node_ok h' t ccmin (BLOCK_SIZE P))
                      (fun e' => first_leaf h' t (real_index (head e')))
                      (items n) hi nxt
     end.

(** ** The invariant of the tree object *)

(** The blocks of the tree and the free blocks are distinct blocks that
    were handed out. *)
Definition blocks_ok (t : tree) (bl : list Z) : Prop :=
  NoDup (bl ++ free_list t)
  /\ Forall (fun b => 0 < b < next_block t) (bl ++ free_list t)
  /\ 0 < next_block t <= MAXN_SIZE.

Definition root_count (t : tree) : Z := count (hdr (root t)).

(** The least count of a son of the root: an only son may hold a single
    entry. *)
Definition root_ccmin (t : tree) : Z :=
  if root_count t =? 1 then 1 else MERGE_SIZE P + 1.

Definition tree_inv_at (h : nat) (t : tree) : Prop :=
  state (hdr (root t)) = 0
  /\ 0 <= root_count t <= BLOCK_SIZE P
  /\ body_ok (S h) t (root_ccmin t) 0 None MAXN_SIZE
  /\ (root_count t = 1 -> h = O)
  /\ blocks_ok t (tl (blocks (S h) t 0)).

Definition tree_inv (t : tree) : Prop := exists h, tree_inv_at h t.

(** ** What is stored, and which states can arise *)

(** The pairs in the leaves, left to right.  The descent is bounded by
    the number of blocks ever handed out. *)
Fixpoint collect (fuel : nat) (t : tree) (h : header) : list value_pair :=
  match fuel with
  | O => []
  | S fuel =>
      let n := deref t (get_pointer h) in
      if is_inner h
      then flat_map (fun e => collect fuel t (head e)) (take (Z.to_nat (count h)) (data n))
      else map v (take (Z.to_nat (count h)) (data n))
  end.

Definition stored (t : tree) : list value_pair :=
  collect (Z.to_nat (next_block t)) t (hdr (root t)).

(** The blocks hanging below the root, reached through the headers. *)
Inductive in_tree (t : tree) : header -> Prop :=
| in_tree_son e :
    In e (items (root t)) -> in_tree t (head e)
| in_tree_below hd e :
    in_tree t hd -> is_inner hd = true ->
    In e (items (deref t (get_pointer hd))) -> in_tree t (head e).

(** The states the public operations lead to from a fresh tree. *)
Inductive reachable : tree -> Prop :=
| reach_init : reachable init
| reach_insert fuel t k x t' :
    reachable t -> insert fuel t k x = Ok t' -> reachable t'
| reach_erase fuel t k x t' :
    reachable t -> erase fuel t k x = Ok t' -> reachable t'.

End Vocabulary.

(** * Further vocabulary *)

Section Checks.

Context {key_t T : Type} `{Inst : Instantiation key_t T}.

Local Abbreviation value_pair := (@value_pair key_t T).
Local Abbreviation value_tuple := (@value_tuple key_t T).

(** The keys of the entries of [d] in [l,r) never descend. *)
Definition key_sorted_range (d : list value_tuple) (l r : Z) : Prop :=
  forall i j, l <= i -> i < j -> j < r ->
    0 <= k_comp (key (v (get d j))) (key (v (get d i))).

(** ** Checks of the two orders on a concrete array *)

Definition sorted_rangeb (d : list value_tuple) (l r : Z) : bool :=
  forallb (fun i => p_comp (v (get d i)) (v (get d (i + 1))) <? 0) (seqZ l (r - l - 1)).

Definition key_sorted_rangeb (d : list value_tuple) (l r : Z) : bool :=
  forallb (fun i => 0 <=? k_comp (key (v (get d (i + 1)))) (key (v (get d i))))
          (seqZ l (r - l - 1)).

(** The test of the scanning loops of the queries: the entry carries
    the key [k]. *)
Definition has_key (k : key_t) (e : value_tuple) : bool := k_comp k (key (v e)) =? 0.

End Checks.



(** * Concrete instantiations *)

Module Demo.

(** Integer keys and values, compared by their difference, in blocks of
    ten entries: the smallest block size the template accepts. *)
Definition z_comp (a b : Z) : Z := a - b.

#[global] Instance small : Instantiation Z Z := {|
  k_comp := z_comp;
  v_comp := z_comp;
  key0 := 0;
  val0 := 0;
  P := tree_template 4095 50 10
|}.

Definition run_insert (r : result (@tree Z Z)) (k x : Z) : result tree :=
  t ← r; insert 20 t k x.

Definition run_erase (r : result (@tree Z Z)) (k x : Z) : result tree :=
  t ← r; erase 20 t k x.

(** Insert the keys [k0, k0 + step, ...], [n] of them, with value 0. *)
Fixpoint insert_keys (n : nat) (r : result (@tree Z Z)) (k0 step : Z) : result tree :=
  match n with
  | O => r
  | S n => insert_keys n (run_insert r k0 0) (k0 + step) step
  end.

Fixpoint erase_keys (n : nat) (r : result (@tree Z Z)) (k0 step : Z) : result tree :=
  match n with
  | O => r
  | S n => erase_keys n (run_erase r k0 0) (k0 + step) step
  end.

Definition unwrap (r : result (@tree Z Z)) : tree :=
  match r with Ok t => t | _ => init end.

(** Three leaves under the root holding 5, 10 and 5 pairs: the keys
    20..60, 70..120 with 71..74, and 130..170. *)
Definition tie_tree : tree :=
  unwrap (insert_keys 4 (run_erase (insert_keys 17 (Ok init) 10 10) 10 0) 71 1).

(** [tie_tree] as the root finds it when the insertion of (75,0) into its
    middle son has returned. *)
Definition tie_overfull : tree :=
  match insert_outer tie_tree (HEntry 0 1) 75 0 with
  | Ok (_, t) => modify t 0
  | _ => tie_tree
  end.

(** Three entries of a leaf, with the pairs (1,5), (2,5) and (2,7). *)
Definition three_entries : list (@value_tuple Z Z) :=
  [ ValueTuple (Header 0 0) (ValuePair 1 5);
    ValueTuple (Header 0 0) (ValuePair 2 5);
    ValueTuple (Header 0 0) (ValuePair 2 7) ].

(** A root with one leaf that holds the keys 10, 20 and 30. *)
Definition one_leaf : tree := unwrap (insert_keys 3 (Ok init) 10 10).

(** The tree that [allocate] leaves. *)
Definition allocated (t : @tree Z Z) : tree :=
  match allocate t with Ok (_, t') => t' | _ => t end.

(** Three leaves under the root holding 6, 6 and 10 pairs, the middle
    one being the son in hand. *)
Definition wide_tree : tree :=
  set_cache_pointer (unwrap (insert_keys 22 (Ok init) 10 10)) 2.

(** Three leaves of 4 pairs each. *)
Definition thin_tree : tree :=
  unwrap (erase_keys 6 (erase_keys 2 (erase_keys 2 (insert_keys 22 (Ok init) 10 10)
                                        50 10) 110 10) 170 10).


(** Ten leaves under a full root. *)
Definition full_root : tree := unwrap (insert_keys 64 (Ok init) 10 10).

(** [full_root] when the insertion of (650,0) has split the last leaf
    and the root holds one entry too many. *)
Definition root_overfull : tree :=
  match insert_inner 20 full_root HRoot 650 0 with
  | Ok (_, t) => t
  | _ => full_root
  end.

(** The same tree once the root is split: two inner nodes under the
    root, the left one being the son in hand. *)
Definition tall_tree : tree :=
  match split_root root_overfull with
  | Ok t => set_cache_pointer t (get_pointer (head (get (data (root t)) 0)))
  | _ => root_overfull
  end.

End Demo.



(** * Basic facts *)

Lemma int_wrap_small z : - 2 ^ 31 <= z < 2 ^ 31 -> int_wrap z = z.
Proof.
  intros Hz. unfold int_wrap.
  rewrite Z.mod_small by lia. lia.
Qed.

Lemma shiftr1_div2 z : Z.shiftr z 1 = z / 2.
Proof. rewrite Z.shiftr_div_pow2 by lia. reflexivity. Qed.

Lemma lnot_nonneg_neg m : 0 <= m -> Z.lnot m < 0.
Proof. unfold Z.lnot. lia. Qed.

Lemma lnot_lnot m : Z.lnot (Z.lnot m) = m.
Proof. unfold Z.lnot. lia. Qed.

Section StateFacts.

Context {key_t T : Type} `{Inst : Instantiation key_t T}.

Local Abbreviation value_pair := (@value_pair key_t T).
Local Abbreviation value_tuple := (@value_tuple key_t T).
Local Abbreviation node := (@node key_t T).
Local Abbreviation tree := (@tree key_t T).

Lemma deref_store (t : tree) x n y :
  deref (store t x n) y = if decide (y = x) then n else deref t y.
Proof.
  unfold deref, store.
  destruct (Z.eqb_spec x 0) as [->|Hx]; destruct (Z.eqb_spec y 0) as [->|Hy];
    simpl; repeat case_decide; subst; try congruence; try reflexivity.
  - rewrite lookup_total_insert_eq. reflexivity.
  - rewrite lookup_total_insert_ne by congruence. reflexivity.
Qed.

Lemma deref_upd (t : tree) x f y :
  deref (upd t x f) y = if decide (y = x) then f (deref t x) else deref t y.
Proof. apply deref_store. Qed.

Lemma deref_upd_eq (t : tree) x f : deref (upd t x f) x = f (deref t x).
Proof. rewrite deref_upd. case_decide; congruence. Qed.

Lemma deref_upd_ne (t : tree) x f y : y <> x -> deref (upd t x f) y = deref t y.
Proof. intros. rewrite deref_upd. case_decide; congruence. Qed.

Lemma deref_modify (t : tree) x y : deref (modify t x) y = deref t y.
Proof. reflexivity. Qed.

Lemma deref_recycle (t : tree) x y : deref (recycle t x) y = deref t y.
Proof. reflexivity. Qed.

Lemma deref_set_cache_pointer (t : tree) x y : deref (set_cache_pointer t x) y = deref t y.
Proof. reflexivity. Qed.

Lemma root_deref (t : tree) : root t = deref t 0.
Proof. reflexivity. Qed.

Lemma cache_pointer_store (t : tree) x n : cache_pointer (store t x n) = cache_pointer t.
Proof. unfold store. destruct (x =? 0); reflexivity. Qed.

Lemma free_list_store (t : tree) x n : free_list (store t x n) = free_list t.
Proof. unfold store. destruct (x =? 0); reflexivity. Qed.

Lemma next_block_store (t : tree) x n : next_block (store t x n) = next_block t.
Proof. unfold store. destruct (x =? 0); reflexivity. Qed.

Lemma dirty_store (t : tree) x n : dirty (store t x n) = dirty t.
Proof. unfold store. destruct (x =? 0); reflexivity. Qed.

Lemma cache_pointer_upd (t : tree) x f : cache_pointer (upd t x f) = cache_pointer t.
Proof. apply cache_pointer_store. Qed.

Lemma free_list_upd (t : tree) x f : free_list (upd t x f) = free_list t.
Proof. apply free_list_store. Qed.

Lemma next_block_upd (t : tree) x f : next_block (upd t x f) = next_block t.
Proof. apply next_block_store. Qed.

Lemma dirty_upd (t : tree) x f : dirty (upd t x f) = dirty t.
Proof. apply dirty_store. Qed.

End StateFacts.

Ltac tree_simpl :=
  repeat first
    [ rewrite deref_modify | rewrite deref_recycle | rewrite deref_set_cache_pointer
    | rewrite cache_pointer_upd | rewrite free_list_upd | rewrite next_block_upd
    | rewrite dirty_upd | rewrite deref_upd_eq
    | rewrite deref_upd_ne by (first [assumption | congruence | lia]) ].

(** * The search inside a node *)

Section OrderFacts.

Context {key_t T : Type} `{Inst : Instantiation key_t T} {Law : Lawful Inst}.

Local Abbreviation value_pair := (@value_pair key_t T).
Local Abbreviation value_tuple := (@value_tuple key_t T).

Lemma p_comp_eq (a b : value_pair) : p_comp a b = 0 <-> a = b.
Proof.
  unfold p_comp. destruct a as [ka va], b as [kb vb]; simpl.
  destruct (Z.eqb_spec (k_comp ka kb) 0) as [Hk|Hk].
  - apply (cmp_eq _ k_laws) in Hk. subst kb.
    rewrite (cmp_eq _ v_laws). split; [intros ->; reflexivity | congruence].
  - split; [lia|]. intros [= -> ->]. apply (cmp_eq _ k_laws). reflexivity.
Qed.

Lemma p_comp_refl (a : value_pair) : p_comp a a = 0.
Proof. apply p_comp_eq. reflexivity. Qed.

Lemma p_comp_flip (a b : value_pair) : p_comp a b < 0 <-> 0 < p_comp b a.
Proof.
  unfold p_comp.
  destruct (Z.eqb_spec (k_comp (key a) (key b)) 0) as [Hk|Hk].
  - apply (cmp_eq _ k_laws) in Hk. rewrite Hk.
    assert (k_comp (key b) (key b) = 0) as -> by (apply (cmp_eq _ k_laws); reflexivity).
    simpl. apply (cmp_flip _ v_laws).
  - destruct (Z.eqb_spec (k_comp (key b) (key a)) 0) as [Hk'|Hk'].
    + apply (cmp_eq _ k_laws) in Hk'. exfalso. apply Hk.
      apply (cmp_eq _ k_laws). congruence.
    + apply (cmp_flip _ k_laws).
Qed.

Lemma p_lt_trans (a b c : value_pair) : p_lt a b -> p_lt b c -> p_lt a c.
Proof.
  unfold p_lt, p_comp.
  destruct (Z.eqb_spec (k_comp (key a) (key b)) 0) as [Hab|Hab];
  destruct (Z.eqb_spec (k_comp (key b) (key c)) 0) as [Hbc|Hbc].
  - apply (cmp_eq _ k_laws) in Hab, Hbc. rewrite Hab, Hbc.
    assert (k_comp (key c) (key c) = 0) as -> by (apply (cmp_eq _ k_laws); reflexivity).
    simpl. apply (cmp_trans _ v_laws).
  - apply (cmp_eq _ k_laws) in Hab. rewrite Hab.
    destruct (Z.eqb_spec (k_comp (key b) (key c)) 0); [contradiction|]. auto.
  - apply (cmp_eq _ k_laws) in Hbc. rewrite <- Hbc.
    destruct (Z.eqb_spec (k_comp (key a) (key b)) 0); [contradiction|]. auto.
  - intros H1 H2. pose proof (cmp_trans _ k_laws _ _ _ H1 H2) as H3.
    destruct (Z.eqb_spec (k_comp (key a) (key c)) 0); [lia|]. exact H3.
Qed.

Lemma p_lt_irrefl (a : value_pair) : ~ p_lt a a.
Proof. unfold p_lt. rewrite p_comp_refl. lia. Qed.

Lemma p_lt_asym (a b : value_pair) : p_lt a b -> ~ p_lt b a.
Proof. intros H1 H2. apply (p_lt_irrefl a). eapply p_lt_trans; eassumption. Qed.

(** Exactly one of [a < b], [a = b], [b < a]. *)
Lemma p_comp_cases (a b : value_pair) :
  (p_comp a b < 0 /\ p_lt a b) \/ (p_comp a b = 0 /\ a = b) \/ (0 < p_comp a b /\ p_lt b a).
Proof.
  destruct (Z.lt_trichotomy (p_comp a b) 0) as [H|[H|H]].
  - left. split; assumption.
  - right. left. split; [assumption|]. apply p_comp_eq. assumption.
  - right. right. split; [assumption|]. unfold p_lt. apply p_comp_flip. assumption.
Qed.

Lemma sorted_range_sub (d : list value_tuple) l r l' r' :
  sorted_range d l r -> l <= l' -> r' <= r -> sorted_range d l' r'.
Proof. intros H Hl Hr i j Hi Hij Hj. apply H; lia. Qed.

(** The loop of [binary_search], with what it knows about the entries
    outside [l,r). *)
Lemma binary_search_loop_spec (d : list value_tuple) k x l0 r0 :
  sorted_range d l0 r0 -> r0 < 2 ^ 30 ->
  forall fuel l r,
    0 <= l0 <= l -> l <= r <= r0 -> (Z.to_nat (r - l) <= fuel)%nat ->
    (forall j, l0 <= j < l -> p_lt (v (get d j)) (ValuePair k x)) ->
    (forall j, r <= j < r0 -> p_lt (ValuePair k x) (v (get d j))) ->
    exists res, binary_search_loop fuel d k x l r = Ok res
      /\ ((l0 <= res <= r0
           /\ (forall j, l0 <= j < res -> p_lt (v (get d j)) (ValuePair k x))
           /\ (forall j, res <= j < r0 -> p_lt (ValuePair k x) (v (get d j))))
          \/ (exists m, res = Z.lnot m /\ l0 <= m < r0 /\ v (get d m) = ValuePair k x)).
Proof.
  intros Hs Hr0. induction fuel as [|fuel IH]; intros l r Hl Hr Hf Hlo Hhi.
  - assert (l = r) as -> by lia. simpl. rewrite Z.eqb_refl.
    eexists; split; [reflexivity|]. left. split; [lia|]. split; assumption.
  - simpl. destruct (Z.eqb_spec l r) as [->|Hne].
    + eexists; split; [reflexivity|]. left. split; [lia|]. split; assumption.
    + rewrite int_wrap_small by lia. rewrite shiftr1_div2.
      set (mid := (l + r) / 2).
      assert (l <= mid < r) as Hmid by (unfold mid; split;
        [apply Z.div_le_lower_bound; lia | apply Z.div_lt_upper_bound; lia]).
      change (if k_comp k (key (v (get d mid))) =? 0
              then v_comp x (val (v (get d mid)))
              else k_comp k (key (v (get d mid))))
        with (p_comp (ValuePair k x) (v (get d mid))).
      destruct (p_comp_cases (ValuePair k x) (v (get d mid))) as [[Hc Hlt]|[[Hc Heq]|[Hc Hlt]]].
      * destruct (Z.ltb_spec 0 (p_comp (ValuePair k x) (v (get d mid)))); [lia|].
        destruct (Z.ltb_spec (p_comp (ValuePair k x) (v (get d mid))) 0); [|lia].
        apply IH; try lia; [assumption|].
        intros j Hj. destruct (Z.eq_dec j mid) as [->|Hjm]; [assumption|].
        destruct (Z.lt_ge_cases j r); [|apply Hhi; lia].
        eapply p_lt_trans; [exact Hlt|]. apply Hs; lia.
      * destruct (Z.ltb_spec 0 (p_comp (ValuePair k x) (v (get d mid)))); [lia|].
        destruct (Z.ltb_spec (p_comp (ValuePair k x) (v (get d mid))) 0); [lia|].
        eexists; split; [reflexivity|]. right. exists mid. split; [reflexivity|].
        split; [lia|]. symmetry. assumption.
      * destruct (Z.ltb_spec 0 (p_comp (ValuePair k x) (v (get d mid)))); [|lia].
        apply IH; try lia; [|assumption].
        intros j Hj. destruct (Z.eq_dec j mid) as [->|Hjm]; [assumption|].
        destruct (Z.lt_ge_cases j l); [apply Hlo; lia|].
        eapply p_lt_trans; [|exact Hlt]. apply Hs; lia.
Qed.

Lemma binary_search_spec (d : list value_tuple) k x l r :
  sorted_range d l r -> 0 <= l <= r -> r < 2 ^ 30 ->
  exists res, binary_search d k x l r = Ok res
    /\ ((l <= res <= r
         /\ (forall j, l <= j < res -> p_lt (v (get d j)) (ValuePair k x))
         /\ (forall j, res <= j < r -> p_lt (ValuePair k x) (v (get d j))))
        \/ (exists m, res = Z.lnot m /\ l <= m < r /\ v (get d m) = ValuePair k x)).
Proof.
  intros Hs Hl Hr. unfold binary_search.
  apply (binary_search_loop_spec d k x l r Hs Hr); try lia.
Qed.

(** C6: on a range [l,r) of a node's entries that is strictly ascending
    by key, then value, [binary_search] returns the complement [~m] of the
    position [m] of the pair when the pair is there, and otherwise the
    position [i] in [l,r] that has the smaller entries before it and the
    larger ones from it on. *)
Theorem binary_search_correct (d : list value_tuple) (k : key_t) (x : T) (l r : Z) :
  sorted_range d l r -> 0 <= l <= r -> r < 2 ^ 30 ->
  (forall m, l <= m < r -> v (get d m) = ValuePair k x ->
     binary_search d k x l r = Ok (Z.lnot m))
  /\ ((forall m, l <= m < r -> v (get d m) <> ValuePair k x) ->
      exists i, binary_search d k x l r = Ok i
        /\ l <= i <= r
        /\ (forall j, l <= j < i -> p_lt (v (get d j)) (ValuePair k x))
        /\ (forall j, i <= j < r -> p_lt (ValuePair k x) (v (get d j)))).
Proof.
  intros Hs Hl Hr.
  destruct (binary_search_spec d k x l r Hs Hl Hr) as (res & Hres & Hcase).
  split.
  - intros m Hm Heq. rewrite Hres. f_equal.
    destruct Hcase as [(Hb & Hlo & Hhi)|(m' & -> & Hm' & Heq')].
    + exfalso. destruct (Z.lt_ge_cases m res).
      * specialize (Hlo m ltac:(lia)). rewrite Heq in Hlo. exact (p_lt_irrefl _ Hlo).
      * specialize (Hhi m ltac:(lia)). rewrite Heq in Hhi. exact (p_lt_irrefl _ Hhi).
    + f_equal. destruct (Z.lt_trichotomy m m') as [H|[H|H]]; [|congruence|].
      * exfalso. pose proof (Hs m m' ltac:(lia) H ltac:(lia)) as Hlt.
        rewrite Heq, Heq' in Hlt. exact (p_lt_irrefl _ Hlt).
      * exfalso. pose proof (Hs m' m ltac:(lia) H ltac:(lia)) as Hlt.
        rewrite Heq, Heq' in Hlt. exact (p_lt_irrefl _ Hlt).
  - intros Hnone. exists res. split; [assumption|].
    destruct Hcase as [(Hb & Hlo & Hhi)|(m' & -> & Hm' & Heq')].
    + auto.
    + exfalso. exact (Hnone m' Hm' Heq').
Qed.

End OrderFacts.



(** * The instance of the driver *)

(** C8, as the code has it: the driver passes 4095, 50 and 101 for
    TABLE_SIZE, CACHE_SIZE and BLOCK_SIZE, so a node holds at most 101
    entries (50 is the size of the cache), and the two thresholds are 67
    and 33. *)
Theorem main_tree_sizes :
  BLOCK_SIZE main_tree = 101 /\ CACHE_SIZE main_tree = 50 /\ TABLE_SIZE main_tree = 4095
  /\ AMORT_SIZE main_tree = 67 /\ MERGE_SIZE main_tree = 33.
Proof. repeat split; reflexivity. Qed.

(** C8, as stated, fails: the block size of the driver's tree is not 50. *)
Lemma main_tree_block_size_not_50 : BLOCK_SIZE main_tree <> 50.
Proof. discriminate. Qed.

(** * A tie in [insert_amortize] *)

(** C7, as stated, fails on a tie: in [Demo.tie_tree] the sons of the
    root hold 5, 10 and 5 pairs; inserting (75,0) overfills the middle
    one, both siblings qualify with equal counts, and the left one
    (block 1) receives three entries, the pairs with the keys 70, 71
    and 72, while the right one (block 3) is left as it was. *)
Lemma insert_amortize_tie_goes_left :
  let t := Demo.tie_tree in
  let d := data (root t) in
  count (head (get d 0)) = 5 /\ count (head (get d 2)) = 5 /\ 5 < AMORT_SIZE P
  /\ get_pointer (head (get d 0)) = 1 /\ get_pointer (head (get d 1)) = 2
  /\ get_pointer (head (get d 2)) = 3
  /\ exists t', insert 20 t 75 0 = Ok t'
       /\ count (hdr (deref t' 1)) = 8
       /\ count (hdr (deref t' 2)) = 8
       /\ deref t' 3 = deref t 3
       /\ map (fun e => key (v e)) (items (deref t 1)) = [20; 30; 40; 50; 60]
       /\ map (fun e => key (v e)) (items (deref t' 1)) = [20; 30; 40; 50; 60; 70; 71; 72]
       /\ map (fun e => key (v e)) (items (deref t' 2)) = [73; 74; 75; 80; 90; 100; 110; 120].
Proof.
  vm_compute. repeat split; try discriminate.
  eexists. split; [reflexivity|]. repeat split.
Qed.



(** * Entry arrays *)

Section Arrays.

Context {key_t T : Type} `{Inst : Instantiation key_t T}.

Local Abbreviation value_pair := (@value_pair key_t T).
Local Abbreviation value_tuple := (@value_tuple key_t T).
Local Abbreviation node := (@node key_t T).

Implicit Types d src dst : list value_tuple.

Lemma length_set d i e : length (set d i e) = length d.
Proof. apply length_insert. Qed.

Lemma length_mmove dst doff src soff cnt :
  0 <= doff -> 0 <= cnt -> 0 <= soff ->
  (Z.to_nat (doff + cnt) <= length dst)%nat ->
  (Z.to_nat (soff + cnt) <= length src)%nat ->
  length (mmove dst doff src soff cnt) = length dst.
Proof.
  intros. unfold mmove. rewrite !length_app, !length_take, length_drop, length_drop. lia.
Qed.

Lemma mmove_zero dst doff src soff :
  (Z.to_nat doff <= length dst)%nat -> mmove dst doff src soff 0 = dst.
Proof.
  intros. unfold mmove. change (Z.to_nat 0) with 0%nat.
  rewrite take_0, Nat.add_0_r. simpl. apply take_drop.
Qed.

Lemma get_lookup d i e : 0 <= i -> d !! Z.to_nat i = Some e -> get d i = e.
Proof. intros Hi H. unfold get. apply nth_lookup_Some with (d := tuple0) in H. exact H. Qed.

Lemma lookup_get d i : 0 <= i -> (Z.to_nat i < length d)%nat -> d !! Z.to_nat i = Some (get d i).
Proof.
  intros Hi Hl. destruct (lookup_lt_is_Some_2 d _ Hl) as [e He].
  rewrite He. f_equal. symmetry. apply get_lookup; assumption.
Qed.

Lemma get_take d c i : 0 <= i < c -> get (take (Z.to_nat c) d) i = get d i.
Proof.
  intros Hi. unfold get. rewrite !nth_lookup. rewrite lookup_take_lt by lia. reflexivity.
Qed.

Lemma get_set_eq d i e : 0 <= i -> (Z.to_nat i < length d)%nat -> get (set d i e) i = e.
Proof.
  intros Hi Hl. apply get_lookup; [assumption|]. unfold set.
  apply list_lookup_insert_eq. assumption.
Qed.

Lemma get_set_ne d i j e : 0 <= i -> 0 <= j -> i <> j -> get (set d i e) j = get d j.
Proof.
  intros Hi Hj Hne. unfold get, set. rewrite !nth_lookup.
  rewrite list_lookup_insert_ne by lia. reflexivity.
Qed.

Lemma take_set d c i e :
  0 <= i -> take (Z.to_nat c) (set d i e) = <[Z.to_nat i := e]> (take (Z.to_nat c) d).
Proof.
  intros Hi. unfold set.
  destruct (decide (Z.to_nat i < Z.to_nat c)%nat).
  - apply take_insert_lt. assumption.
  - rewrite take_insert_ge by lia. rewrite list_insert_ge; [reflexivity|].
    rewrite length_take. lia.
Qed.

(** The first [n] entries of the result of a move, when [n] covers the
    destination range. *)
Lemma take_mmove dst doff src soff cnt n :
  0 <= doff -> 0 <= cnt -> 0 <= soff -> doff + cnt <= n ->
  (Z.to_nat doff <= length dst)%nat ->
  (Z.to_nat (soff + cnt) <= length src)%nat ->
  take (Z.to_nat n) (mmove dst doff src soff cnt)
  = take (Z.to_nat doff) dst ++ take (Z.to_nat cnt) (drop (Z.to_nat soff) src)
    ++ take (Z.to_nat (n - doff - cnt)) (drop (Z.to_nat (doff + cnt)) dst).
Proof.
  intros Hd Hc Hs Hn Hld Hls. unfold mmove.
  rewrite take_app_ge by (rewrite length_take; lia).
  rewrite length_take. rewrite Nat.min_l by lia. f_equal.
  rewrite take_app_ge by (rewrite length_take, length_drop; lia).
  rewrite length_take, length_drop. rewrite Nat.min_l by lia. f_equal.
  replace (Z.to_nat doff + Z.to_nat cnt)%nat with (Z.to_nat (doff + cnt)) by lia.
  f_equal. lia.
Qed.

Lemma take_drop_commute_Z d j k :
  0 <= j -> 0 <= k ->
  take (Z.to_nat k) (drop (Z.to_nat j) d) = drop (Z.to_nat j) (take (Z.to_nat (j + k)) d).
Proof.
  intros Hj Hk. rewrite take_drop_commute. f_equal. f_equal. lia.
Qed.

(** Opening a gap at [pos] in the first [c] entries and filling it. *)
Lemma take_insert_at d c pos e :
  0 <= pos <= c -> (Z.to_nat (c + 1) <= length d)%nat ->
  take (Z.to_nat (c + 1)) (set (mmove d (pos + 1) d pos (c - pos)) pos e)
  = take (Z.to_nat pos) (take (Z.to_nat c) d) ++ e :: drop (Z.to_nat pos) (take (Z.to_nat c) d).
Proof.
  intros Hpos Hlen. rewrite take_set by lia.
  rewrite (take_mmove d (pos + 1) d pos (c - pos) (c + 1)) by lia.
  replace (Z.to_nat (c + 1 - (pos + 1) - (c - pos))) with 0%nat by lia.
  rewrite take_0, app_nil_r.
  rewrite take_take. rewrite Nat.min_l by lia.
  rewrite (take_drop_commute_Z d pos (c - pos)) by lia.
  replace (pos + (c - pos)) with c by lia.
  replace (Z.to_nat (pos + 1)) with (S (Z.to_nat pos)) by lia.
  destruct (lookup_lt_is_Some_2 d (Z.to_nat pos) ltac:(lia)) as [y Hy].
  rewrite (take_S_r _ _ _ Hy). rewrite <- app_assoc. simpl.
  rewrite insert_app_r_alt by (rewrite length_take; lia).
  rewrite length_take. rewrite Nat.min_l by lia. rewrite Nat.sub_diag. reflexivity.
Qed.


(** Appending the first [k] entries of [src]. *)
Lemma take_append d c src k :
  0 <= c -> 0 <= k -> (Z.to_nat (c + k) <= length d)%nat -> (Z.to_nat k <= length src)%nat ->
  take (Z.to_nat (c + k)) (mmove d c src 0 k)
  = take (Z.to_nat c) d ++ take (Z.to_nat k) src.
Proof.
  intros Hc Hk Hl Hs.
  rewrite (take_mmove d c src 0 k (c + k)) by lia.
  replace (Z.to_nat (c + k - c - k)) with 0%nat by lia.
  rewrite take_0, app_nil_r. change (Z.to_nat 0) with 0%nat. rewrite drop_0. reflexivity.
Qed.

(** Dropping the first [k] of [c] entries. *)
Lemma take_shift_down d c k :
  0 <= k <= c -> (Z.to_nat c <= length d)%nat ->
  take (Z.to_nat (c - k)) (mmove d 0 d k (c - k))
  = drop (Z.to_nat k) (take (Z.to_nat c) d).
Proof.
  intros Hk Hl.
  rewrite (take_mmove d 0 d k (c - k) (c - k)) by lia.
  replace (Z.to_nat (c - k - 0 - (c - k))) with 0%nat by lia.
  change (Z.to_nat 0) with 0%nat. rewrite !take_0, app_nil_r. simpl.
  rewrite (take_drop_commute_Z d k (c - k)) by lia.
  replace (k + (c - k)) with c by lia. reflexivity.
Qed.

(** Prepending the [k] entries of [src] from [s] on, as [amortize_prev]
    does with two moves. *)
Lemma take_prepend d c src s k :
  0 <= c -> 0 <= k -> 0 <= s ->
  (Z.to_nat (c + k) <= length d)%nat -> (Z.to_nat (s + k) <= length src)%nat ->
  take (Z.to_nat (c + k)) (mmove (mmove d k d 0 c) 0 src s k)
  = drop (Z.to_nat s) (take (Z.to_nat (s + k)) src) ++ take (Z.to_nat c) d.
Proof.
  intros Hc Hk Hs Hl Hls.
  assert (length (mmove d k d 0 c) = length d) as Hlen
    by (apply length_mmove; lia).
  rewrite (take_mmove (mmove d k d 0 c) 0 src s k (c + k)) by lia.
  change (Z.to_nat 0) with 0%nat. rewrite take_0. simpl.
  rewrite (take_drop_commute_Z src s k) by lia. f_equal.
  replace (c + k - 0 - k) with c by lia.
  replace (0 + k) with k by lia.
  unfold mmove. change (Z.to_nat 0) with 0%nat. rewrite drop_0.
  rewrite drop_app_length' by (rewrite length_take; lia).
  rewrite take_app_length' by (rewrite length_take; lia). reflexivity.
Qed.

(** The upper part of a node copied to the start of another one. *)
Lemma take_copy_from d src s k :
  0 <= s -> 0 <= k -> (Z.to_nat k <= length d)%nat -> (Z.to_nat (s + k) <= length src)%nat ->
  take (Z.to_nat k) (mmove d 0 src s k)
  = drop (Z.to_nat s) (take (Z.to_nat (s + k)) src).
Proof.
  intros Hs Hk Hl Hls.
  rewrite (take_mmove d 0 src s k k) by lia.
  change (Z.to_nat 0) with 0%nat. rewrite take_0. simpl.
  replace (Z.to_nat (k - 0 - k)) with 0%nat by lia. rewrite take_0, app_nil_r.
  apply take_drop_commute_Z; lia.
Qed.

Lemma set_pair_head_fields d i p c s :
  0 <= i -> (Z.to_nat i < length d)%nat ->
  set_head_state (set_head_count (set_pair d i p) i c) i s
  = set d i (ValueTuple (Header s c) p).
Proof.
  intros Hi Hl. unfold set_head_state, set_head_count, set_head, set_pair.
  rewrite !get_set_eq by (rewrite ?length_set; assumption).
  simpl. unfold set. rewrite !list_insert_insert_eq. reflexivity.
Qed.

End Arrays.



(** * The two searches by key *)

Section KeySearch.

Context {key_t T : Type} `{Inst : Instantiation key_t T} {Law : Lawful Inst}.

Local Abbreviation value_tuple := (@value_tuple key_t T).

Lemma k_comp_refl (a : key_t) : k_comp a a = 0.
Proof. apply (cmp_eq _ k_laws). reflexivity. Qed.

(** [a <= b] and [b < k] give [a < k]. *)
Lemma key_le_lt (a b k : key_t) :
  0 <= k_comp b a -> 0 < k_comp k b -> 0 < k_comp k a.
Proof.
  intros Hab Hbk.
  destruct (Z.eq_dec (k_comp b a) 0) as [H0|H0].
  - apply (cmp_eq _ k_laws) in H0. subst b. exact Hbk.
  - apply (cmp_flip _ k_laws). apply (cmp_trans _ k_laws) with b.
    + apply (cmp_flip _ k_laws). lia.
    + apply (cmp_flip _ k_laws). exact Hbk.
Qed.

(** [a <= b] and [b <= k] give [a <= k]. *)
Lemma key_le_le (a b k : key_t) :
  0 <= k_comp b a -> 0 <= k_comp k b -> 0 <= k_comp k a.
Proof.
  intros Hab Hbk.
  destruct (Z.eq_dec (k_comp k b) 0) as [H0|H0].
  - apply (cmp_eq _ k_laws) in H0. subst k. exact Hab.
  - pose proof (key_le_lt a b k Hab ltac:(lia)). lia.
Qed.

(** [k < b] and [b <= c] give [k < c]. *)
Lemma key_lt_le (k b c : key_t) :
  k_comp k b < 0 -> 0 <= k_comp c b -> k_comp k c < 0.
Proof.
  intros Hkb Hbc.
  destruct (Z.eq_dec (k_comp c b) 0) as [H0|H0].
  - apply (cmp_eq _ k_laws) in H0. subst c. exact Hkb.
  - apply (cmp_trans _ k_laws) with b; [exact Hkb|].
    apply (cmp_flip _ k_laws). lia.
Qed.

Lemma midpoint_between l r :
  0 <= l -> l < r -> r < 2 ^ 30 ->
  Z.shiftr (int_wrap (l + r)) 1 = (l + r) / 2 /\ l <= (l + r) / 2 < r.
Proof.
  intros Hl Hlr Hr. rewrite int_wrap_small by lia. rewrite shiftr1_div2.
  split; [reflexivity|]. split;
    [apply Z.div_le_lower_bound; lia | apply Z.div_lt_upper_bound; lia].
Qed.

Lemma lower_bound_loop_spec (d : list value_tuple) k l0 r0 :
  key_sorted_range d l0 r0 -> r0 < 2 ^ 30 ->
  forall fuel l r,
    0 <= l0 <= l -> l <= r <= r0 -> (Z.to_nat (r - l) <= fuel)%nat ->
    (forall j, l0 <= j < l -> 0 < k_comp k (key (v (get d j)))) ->
    (forall j, r <= j < r0 -> k_comp k (key (v (get d j))) <= 0) ->
    exists i, lower_bound_loop fuel d k l r = Ok i
      /\ l0 <= i <= r0
      /\ (forall j, l0 <= j < i -> 0 < k_comp k (key (v (get d j))))
      /\ (forall j, i <= j < r0 -> k_comp k (key (v (get d j))) <= 0).
Proof.
  intros Hs Hr0. induction fuel as [|fuel IH]; intros l r Hl Hr Hf Hlo Hhi.
  - assert (l = r) as -> by lia. simpl. rewrite Z.eqb_refl.
    eexists; split; [reflexivity|]. split; [lia|]. split; assumption.
  - simpl. destruct (Z.eqb_spec l r) as [->|Hne].
    + eexists; split; [reflexivity|]. split; [lia|]. split; assumption.
    + destruct (midpoint_between l r) as (-> & Hmid); [lia..|].
      set (mid := (l + r) / 2) in *.
      destruct (Z.ltb_spec 0 (k_comp k (key (v (get d mid))))) as [Hc|Hc].
      * apply IH; try lia; [|assumption].
        intros j Hj. destruct (Z.lt_ge_cases j l); [apply Hlo; lia|].
        destruct (Z.eq_dec j mid) as [->|Hjm]; [assumption|].
        eapply key_le_lt; [|exact Hc]. apply Hs; lia.
      * apply IH; try lia; [assumption|].
        intros j Hj. destruct (Z.lt_ge_cases j r); [|apply Hhi; lia].
        destruct (Z.eq_dec j mid) as [->|Hjm]; [assumption|].
        destruct (Z.le_gt_cases (k_comp k (key (v (get d j)))) 0) as [|Hgt]; [assumption|].
        exfalso. pose proof (key_le_lt _ _ k (Hs mid j ltac:(lia) ltac:(lia) ltac:(lia)) Hgt).
        lia.
Qed.

(** X1: [lower_bound] on a range whose keys never descend: it returns the
    first position of the range whose key is not below [k]; the keys
    before it are below [k], the keys from it on are not. *)
Theorem lower_bound_correct (d : list value_tuple) (k : key_t) (l r : Z) :
  key_sorted_range d l r -> 0 <= l <= r -> r < 2 ^ 30 ->
  exists i, lower_bound d k l r = Ok i
    /\ l <= i <= r
    /\ (forall j, l <= j < i -> 0 < k_comp k (key (v (get d j))))
    /\ (forall j, i <= j < r -> k_comp k (key (v (get d j))) <= 0).
Proof.
  intros Hs Hl Hr. unfold lower_bound.
  apply (lower_bound_loop_spec d k l r Hs Hr); try lia.
Qed.

Lemma upper_bound_loop_spec (d : list value_tuple) k l0 r0 :
  key_sorted_range d l0 r0 -> r0 < 2 ^ 30 ->
  forall fuel l r,
    0 <= l0 <= l -> l <= r <= r0 -> (Z.to_nat (r - l) <= fuel)%nat ->
    (forall j, l0 <= j < l -> 0 <= k_comp k (key (v (get d j)))) ->
    (forall j, r <= j < r0 -> k_comp k (key (v (get d j))) < 0) ->
    exists i, upper_bound_loop fuel d k l r = Ok i
      /\ l0 <= i <= r0
      /\ (forall j, l0 <= j < i -> 0 <= k_comp k (key (v (get d j))))
      /\ (forall j, i <= j < r0 -> k_comp k (key (v (get d j))) < 0).
Proof.
  intros Hs Hr0. induction fuel as [|fuel IH]; intros l r Hl Hr Hf Hlo Hhi.
  - assert (l = r) as -> by lia. simpl. rewrite Z.eqb_refl.
    eexists; split; [reflexivity|]. split; [lia|]. split; assumption.
  - simpl. destruct (Z.eqb_spec l r) as [->|Hne].
    + eexists; split; [reflexivity|]. split; [lia|]. split; assumption.
    + destruct (midpoint_between l r) as (-> & Hmid); [lia..|].
      set (mid := (l + r) / 2) in *.
      destruct (Z.leb_spec 0 (k_comp k (key (v (get d mid))))) as [Hc|Hc].
      * apply IH; try lia; [|assumption].
        intros j Hj. destruct (Z.lt_ge_cases j l); [apply Hlo; lia|].
        destruct (Z.eq_dec j mid) as [->|Hjm]; [assumption|].
        eapply key_le_le; [|exact Hc]. apply Hs; lia.
      * apply IH; try lia; [assumption|].
        intros j Hj. destruct (Z.lt_ge_cases j r); [|apply Hhi; lia].
        destruct (Z.eq_dec j mid) as [->|Hjm]; [assumption|].
        eapply key_lt_le; [exact Hc|]. apply Hs; lia.
Qed.

(** X2: [upper_bound] on a range whose keys never descend: it returns the
    first position of the range whose key is above [k]; the keys before
    it are not above [k], the keys from it on are. *)
Theorem upper_bound_correct (d : list value_tuple) (k : key_t) (l r : Z) :
  key_sorted_range d l r -> 0 <= l <= r -> r < 2 ^ 30 ->
  exists i, upper_bound d k l r = Ok i
    /\ l <= i <= r
    /\ (forall j, l <= j < i -> 0 <= k_comp k (key (v (get d j))))
    /\ (forall j, i <= j < r -> k_comp k (key (v (get d j))) < 0).
Proof.
  intros Hs Hl Hr. unfold upper_bound.
  apply (upper_bound_loop_spec d k l r Hs Hr); try lia.
Qed.

(** X3: Between the two bounds lie exactly the entries with the key [k]. *)
Theorem bounds_enclose_key (d : list value_tuple) (k : key_t) (l r : Z) :
  key_sorted_range d l r -> 0 <= l <= r -> r < 2 ^ 30 ->
  exists lo up, lower_bound d k l r = Ok lo /\ upper_bound d k l r = Ok up
    /\ l <= lo <= up /\ up <= r
    /\ forall j, l <= j < r -> (lo <= j < up <-> key (v (get d j)) = k).
Proof.
  intros Hs Hl Hr.
  unfold lower_bound, upper_bound.
  destruct (lower_bound_loop_spec d k l r Hs Hr (Z.to_nat (r - l)) l r)
    as (lo & Hlo & Hlb & Hl1 & Hl2); try lia.
  destruct (upper_bound_loop_spec d k l r Hs Hr (Z.to_nat (r - l)) l r)
    as (up & Hup & Hub & Hu1 & Hu2); try lia.
  exists lo, up. split; [exact Hlo|]. split; [exact Hup|].
  assert (lo <= up) as Hle.
  { destruct (Z.le_gt_cases lo up) as [|Hgt]; [assumption|]. exfalso.
    pose proof (Hl1 up ltac:(lia)). pose proof (Hu2 up ltac:(lia)). lia. }
  split; [lia|]. split; [lia|].
  intros j Hj. split.
  - intros Hin. symmetry. apply (cmp_eq _ k_laws).
    pose proof (Hl2 j ltac:(lia)). pose proof (Hu1 j ltac:(lia)). lia.
  - intros Heq. pose proof (k_comp_refl k) as Hrefl.
    split.
    + destruct (Z.le_gt_cases lo j) as [|Hgt]; [assumption|]. exfalso.
      pose proof (Hl1 j ltac:(lia)) as H1. rewrite Heq in H1. lia.
    + destruct (Z.lt_ge_cases j up) as [|Hge]; [assumption|]. exfalso.
      pose proof (Hu2 j ltac:(lia)) as H1. rewrite Heq in H1. lia.
Qed.

End KeySearch.



(** * Checking the order of a concrete array *)

Section Check.

Context {key_t T : Type} `{Inst : Instantiation key_t T} {Law : Lawful Inst}.

Local Abbreviation value_pair := (@value_pair key_t T).
Local Abbreviation value_tuple := (@value_tuple key_t T).

Lemma forallb_seqZ (f : Z -> bool) l n i :
  forallb f (seqZ l n) = true -> l <= i < l + n -> f i = true.
Proof.
  intros H Hi. rewrite forallb_forall in H. apply H.
  apply list_elem_of_In. apply elem_of_seqZ. lia.
Qed.

Lemma sorted_rangeb_sound (d : list value_tuple) l r :
  sorted_rangeb d l r = true -> sorted_range d l r.
Proof.
  intros H i j Hi Hij Hj.
  assert (Hstep : forall m, l <= m -> m + 1 < r -> p_lt (v (get d m)) (v (get d (m + 1)))).
  { intros m Hm Hm'. unfold p_lt. apply Z.ltb_lt.
    apply (forallb_seqZ _ l (r - l - 1) m H). lia. }
  assert (Hn : forall n : nat, i + 1 + Z.of_nat n < r ->
                p_lt (v (get d i)) (v (get d (i + 1 + Z.of_nat n)))).
  { induction n as [|n IH]; intros Hr.
    - replace (i + 1 + Z.of_nat 0) with (i + 1) by lia. apply Hstep; lia.
    - eapply p_lt_trans; [apply IH; lia|].
      replace (i + 1 + Z.of_nat (S n)) with (i + 1 + Z.of_nat n + 1) by lia.
      apply Hstep; lia. }
  replace j with (i + 1 + Z.of_nat (Z.to_nat (j - i - 1))) by lia.
  apply Hn. lia.
Qed.

Lemma key_sorted_rangeb_sound (d : list value_tuple) l r :
  key_sorted_rangeb d l r = true -> key_sorted_range d l r.
Proof.
  intros H i j Hi Hij Hj.
  assert (Hstep : forall m, l <= m -> m + 1 < r ->
            0 <= k_comp (key (v (get d (m + 1)))) (key (v (get d m)))).
  { intros m Hm Hm'. apply Z.leb_le.
    apply (forallb_seqZ _ l (r - l - 1) m H). lia. }
  assert (Hn : forall n : nat, i + 1 + Z.of_nat n < r ->
            0 <= k_comp (key (v (get d (i + 1 + Z.of_nat n)))) (key (v (get d i)))).
  { induction n as [|n IH]; intros Hr.
    - replace (i + 1 + Z.of_nat 0) with (i + 1) by lia. apply Hstep; lia.
    - replace (i + 1 + Z.of_nat (S n)) with (i + 1 + Z.of_nat n + 1) by lia.
      eapply key_le_le; [apply IH; lia|]. apply Hstep; lia. }
  replace j with (i + 1 + Z.of_nat (Z.to_nat (j - i - 1))) by lia.
  apply Hn. lia.
Qed.

Lemma absent_check (d : list value_tuple) (a : value_pair) l r :
  forallb (fun m => negb (p_comp (v (get d m)) a =? 0)) (seqZ l (r - l)) = true ->
  forall m, l <= m < r -> v (get d m) <> a.
Proof.
  intros H m Hm Heq.
  pose proof (forallb_seqZ _ l (r - l) m H ltac:(lia)) as Hc. simpl in Hc.
  rewrite Heq, p_comp_refl in Hc. discriminate.
Qed.

End Check.



(** * Moving entries between nodes *)

Section Nodes.

Context {key_t T : Type} `{Inst : Instantiation key_t T}.

Local Abbreviation value_pair := (@value_pair key_t T).
Local Abbreviation value_tuple := (@value_tuple key_t T).
Local Abbreviation node := (@node key_t T).
Local Abbreviation tree := (@tree key_t T).

Implicit Types t : tree.

Lemma dirty_modify t x : dirty (modify t x) = {[x]} ∪ dirty t.
Proof. reflexivity. Qed.

Lemma shiftr1_half a b :
  0 <= a <= b ->
  0 <= Z.shiftr (b - a) 1 <= b - a
  /\ a + Z.shiftr (b - a) 1 <= b - Z.shiftr (b - a) 1 <= a + Z.shiftr (b - a) 1 + 1.
Proof.
  intros H. rewrite shiftr1_div2.
  pose proof (Z.div_mod (b - a) 2 ltac:(lia)).
  pose proof (Z.mod_pos_bound (b - a) 2 ltac:(lia)). lia.
Qed.

Lemma amortize_next_result t prev nxt :
  prev <> nxt ->
  let np := deref t prev in
  let nn := deref t nxt in
  let delta := Z.shiftr (count (hdr nn) - count (hdr np)) 1 in
  let t' := amortize_next t prev nxt in
  deref t' prev = Node (Header (state (hdr np)) (count (hdr np) + delta))
                       (mmove (data np) (count (hdr np)) (data nn) 0 delta)
  /\ deref t' nxt = Node (Header (state (hdr nn)) (count (hdr nn) - delta))
                      (mmove (data nn) 0 (data nn) delta (count (hdr nn) - delta))
  /\ (forall b, b <> prev -> b <> nxt -> deref t' b = deref t b)
  /\ free_list t' = free_list t /\ next_block t' = next_block t
  /\ cache_pointer t' = cache_pointer t
  /\ dirty t' = {[nxt]} ∪ ({[prev]} ∪ dirty t).
Proof.
  intros Hne np nn delta t'. unfold t', amortize_next. cbv zeta.
  repeat split; tree_simpl; simpl; tree_simpl; try reflexivity.
  intros b H1 H2. tree_simpl. reflexivity.
Qed.

Lemma amortize_prev_result t prev nxt :
  prev <> nxt ->
  let np := deref t prev in
  let nn := deref t nxt in
  let delta := Z.shiftr (count (hdr np) - count (hdr nn)) 1 in
  let t' := amortize_prev t prev nxt in
  deref t' prev = Node (Header (state (hdr np)) (count (hdr np) - delta)) (data np)
  /\ deref t' nxt = Node (Header (state (hdr nn)) (count (hdr nn) + delta))
                      (mmove (mmove (data nn) delta (data nn) 0 (count (hdr nn))) 0
                             (data np) (count (hdr np) - delta) delta)
  /\ (forall b, b <> prev -> b <> nxt -> deref t' b = deref t b)
  /\ free_list t' = free_list t /\ next_block t' = next_block t
  /\ cache_pointer t' = cache_pointer t
  /\ dirty t' = {[nxt]} ∪ ({[prev]} ∪ dirty t).
Proof.
  intros Hne np nn delta t'. unfold t', amortize_prev. cbv zeta.
  repeat split; tree_simpl; simpl; tree_simpl; try reflexivity.
  intros b H1 H2. tree_simpl. reflexivity.
Qed.

Lemma amortize_next_items t prev nxt :
  let np := deref t prev in
  let nn := deref t nxt in
  let delta := Z.shiftr (count (hdr nn) - count (hdr np)) 1 in
  let t' := amortize_next t prev nxt in
  prev <> nxt ->
  0 <= count (hdr np) <= count (hdr nn) ->
  (Z.to_nat (count (hdr nn)) <= length (data nn))%nat ->
  (Z.to_nat (count (hdr np) + delta) <= length (data np))%nat ->
  items (deref t' prev) = items np ++ take (Z.to_nat delta) (items nn)
  /\ items (deref t' nxt) = drop (Z.to_nat delta) (items nn).
Proof.
  intros np nn delta t' Hne Hc Hln Hlp.
  destruct (amortize_next_result t prev nxt Hne) as (Hp & Hn & _).
  fold np nn delta t' in Hp, Hn.
  destruct (shiftr1_half _ _ Hc) as (Hd & _). fold delta in Hd.
  rewrite Hp, Hn. unfold items. simpl. split.
  - rewrite take_append by lia. f_equal.
    rewrite take_take. f_equal. lia.
  - apply take_shift_down; lia.
Qed.

Lemma amortize_prev_items t prev nxt :
  let np := deref t prev in
  let nn := deref t nxt in
  let delta := Z.shiftr (count (hdr np) - count (hdr nn)) 1 in
  let t' := amortize_prev t prev nxt in
  prev <> nxt ->
  0 <= count (hdr nn) <= count (hdr np) ->
  (Z.to_nat (count (hdr np)) <= length (data np))%nat ->
  (Z.to_nat (count (hdr nn) + delta) <= length (data nn))%nat ->
  items (deref t' prev) = take (Z.to_nat (count (hdr np) - delta)) (items np)
  /\ items (deref t' nxt)
     = drop (Z.to_nat (count (hdr np) - delta)) (items np) ++ items nn.
Proof.
  intros np nn delta t' Hne Hc Hlp Hln.
  destruct (amortize_prev_result t prev nxt Hne) as (Hp & Hn & _).
  fold np nn delta t' in Hp, Hn.
  destruct (shiftr1_half _ _ Hc) as (Hd & _). fold delta in Hd.
  rewrite Hp, Hn. unfold items. simpl. split.
  - rewrite take_take. f_equal. lia.
  - rewrite take_prepend by lia.
    replace (count (hdr np) - delta + delta) with (count (hdr np)) by lia.
    reflexivity.
Qed.

(** X4: [amortize_next] moves entries from the fuller node [nxt] to its left
    neighbour [prev]: the first [delta] entries of [nxt], half the
    difference of the two counts, are appended to those of [prev], and
    [nxt] keeps the rest; the two counts end up equal or with one entry
    more on the right, the headers keep their links, and no other block
    is written. *)
Theorem amortize_next_entries t prev nxt :
  let np := deref t prev in
  let nn := deref t nxt in
  let delta := Z.shiftr (count (hdr nn) - count (hdr np)) 1 in
  let t' := amortize_next t prev nxt in
  prev <> nxt ->
  0 <= count (hdr np) <= count (hdr nn) ->
  (Z.to_nat (count (hdr nn)) <= length (data nn))%nat ->
  (Z.to_nat (count (hdr np) + delta) <= length (data np))%nat ->
  items (deref t' prev) = items np ++ take (Z.to_nat delta) (items nn)
  /\ items (deref t' nxt) = drop (Z.to_nat delta) (items nn)
  /\ count (hdr (deref t' prev)) = count (hdr np) + delta
  /\ count (hdr (deref t' nxt)) = count (hdr nn) - delta
  /\ count (hdr (deref t' prev)) <= count (hdr (deref t' nxt))
     <= count (hdr (deref t' prev)) + 1
  /\ state (hdr (deref t' prev)) = state (hdr np)
  /\ state (hdr (deref t' nxt)) = state (hdr nn)
  /\ (forall b, b <> prev -> b <> nxt -> deref t' b = deref t b)
  /\ free_list t' = free_list t.
Proof.
  intros np nn delta t' Hne Hc Hln Hlp.
  destruct (amortize_next_items t prev nxt Hne Hc Hln Hlp) as (Hip & Hin).
  fold np nn delta t' in Hip, Hin.
  destruct (amortize_next_result t prev nxt Hne)
    as (Hp & Hn & Ho & Hf & _ & _ & _).
  fold np nn delta t' in Hp, Hn, Ho, Hf.
  destruct (shiftr1_half _ _ Hc) as (Hd & Hbal). fold delta in Hd, Hbal.
  split; [exact Hip|]. split; [exact Hin|].
  rewrite Hp, Hn. simpl. repeat split; try assumption; lia.
Qed.

(** X5: [amortize_prev] moves entries from the fuller node [prev] to its
    right neighbour [nxt]: the last [delta] entries of [prev], half the
    difference of the two counts, are put in front of those of [nxt],
    and [prev] keeps the rest; the two counts end up equal or with one
    entry more on the left, the headers keep their links, and no other
    block is written. *)
Theorem amortize_prev_entries t prev nxt :
  let np := deref t prev in
  let nn := deref t nxt in
  let delta := Z.shiftr (count (hdr np) - count (hdr nn)) 1 in
  let t' := amortize_prev t prev nxt in
  prev <> nxt ->
  0 <= count (hdr nn) <= count (hdr np) ->
  (Z.to_nat (count (hdr np)) <= length (data np))%nat ->
  (Z.to_nat (count (hdr nn) + delta) <= length (data nn))%nat ->
  items (deref t' prev) = take (Z.to_nat (count (hdr np) - delta)) (items np)
  /\ items (deref t' nxt)
     = drop (Z.to_nat (count (hdr np) - delta)) (items np) ++ items nn
  /\ count (hdr (deref t' prev)) = count (hdr np) - delta
  /\ count (hdr (deref t' nxt)) = count (hdr nn) + delta
  /\ count (hdr (deref t' nxt)) <= count (hdr (deref t' prev))
     <= count (hdr (deref t' nxt)) + 1
  /\ state (hdr (deref t' prev)) = state (hdr np)
  /\ state (hdr (deref t' nxt)) = state (hdr nn)
  /\ (forall b, b <> prev -> b <> nxt -> deref t' b = deref t b)
  /\ free_list t' = free_list t.
Proof.
  intros np nn delta t' Hne Hc Hlp Hln.
  destruct (amortize_prev_items t prev nxt Hne Hc Hlp Hln) as (Hip & Hin).
  fold np nn delta t' in Hip, Hin.
  destruct (amortize_prev_result t prev nxt Hne)
    as (Hp & Hn & Ho & Hf & _ & _ & _).
  fold np nn delta t' in Hp, Hn, Ho, Hf.
  destruct (shiftr1_half _ _ Hc) as (Hd & Hbal). fold delta in Hd, Hbal.
  split; [exact Hip|]. split; [exact Hin|].
  rewrite Hp, Hn. simpl. repeat split; try assumption; lia.
Qed.

(** * The choice of the sibling in [insert_amortize] *)

(** C7, as the code has it: when both siblings of the overfull son [x]
    hold fewer than AMORT_SIZE entries, the right one receives entries
    if the left one holds strictly more than it, and the left one
    receives them otherwise, so also when the two counts are equal.  The
    sibling that is not chosen is left as it was.  The entries that
    move are [delta] entries of the son, half the difference of the two
    counts: its last ones go in front of the entries of the right
    sibling, or its first ones go behind the entries of the left
    sibling, and the son keeps the others. *)
Theorem insert_amortize_choice (t : tree) (pointer x : Z) :
  let d := data (deref t pointer) in
  let son := cache_pointer t in
  let left := get_pointer (head (get d (x - 1))) in
  let right := get_pointer (head (get d (x + 1))) in
  let cl := count (head (get d (x - 1))) in
  let cr := count (head (get d (x + 1))) in
  x <> 0 -> x <> count (hdr (deref t pointer)) - 1 ->
  cl < AMORT_SIZE P -> cr < AMORT_SIZE P ->
  left <> right -> left <> son -> right <> son ->
  pointer <> left -> pointer <> right -> pointer <> son ->
  let t' := snd (insert_amortize t pointer x) in
  fst (insert_amortize t pointer x) = true
  /\ (cr < cl ->
        let delta := Z.shiftr (count (hdr (deref t son)) - count (hdr (deref t right))) 1 in
        count (hdr (deref t' right)) = count (hdr (deref t right)) + delta
        /\ count (hdr (deref t' son)) = count (hdr (deref t son)) - delta
        /\ deref t' left = deref t left
        /\ (0 <= count (hdr (deref t right)) <= count (hdr (deref t son)) ->
            (Z.to_nat (count (hdr (deref t son))) <= length (data (deref t son)))%nat ->
            (Z.to_nat (count (hdr (deref t right)) + delta)
             <= length (data (deref t right)))%nat ->
            items (deref t' son)
            = take (Z.to_nat (count (hdr (deref t son)) - delta)) (items (deref t son))
            /\ items (deref t' right)
               = drop (Z.to_nat (count (hdr (deref t son)) - delta)) (items (deref t son))
                 ++ items (deref t right)))
  /\ (cl <= cr ->
        let delta := Z.shiftr (count (hdr (deref t son)) - count (hdr (deref t left))) 1 in
        count (hdr (deref t' left)) = count (hdr (deref t left)) + delta
        /\ count (hdr (deref t' son)) = count (hdr (deref t son)) - delta
        /\ deref t' right = deref t right
        /\ (0 <= count (hdr (deref t left)) <= count (hdr (deref t son)) ->
            (Z.to_nat (count (hdr (deref t son))) <= length (data (deref t son)))%nat ->
            (Z.to_nat (count (hdr (deref t left)) + delta)
             <= length (data (deref t left)))%nat ->
            items (deref t' left)
            = items (deref t left) ++ take (Z.to_nat delta) (items (deref t son))
            /\ items (deref t' son) = drop (Z.to_nat delta) (items (deref t son)))).
Proof.
  intros d son left right cl cr Hx0 Hxl Hcl Hcr Hlr Hls Hrs Hpl Hpr Hps.
  unfold insert_amortize. fold d. fold cl. fold cr.
  destruct (Z.eqb_spec x (count (hdr (deref t pointer)) - 1)) as [|_]; [contradiction|].
  destruct (Z.eqb_spec x 0) as [|_]; [contradiction|].
  destruct (Z.ltb_spec cr (AMORT_SIZE P)) as [_|]; [|lia].
  destruct (Z.ltb_spec cl (AMORT_SIZE P)) as [_|]; [|lia].
  unfold settle_flags. simpl andb. cbv iota.
  destruct (Z.ltb_spec cr cl) as [Hlt|Hge]; cbv iota beta; simpl fst; simpl snd.
  - split; [reflexivity|]. split; [|lia]. intros _. cbv zeta.
    fold right. fold son.
    assert (Hsr : son <> right) by congruence.
    destruct (amortize_prev_result t son right Hsr) as (Hp & Hn & Ho & _).
    cbv zeta in Hp, Hn, Ho.
    tree_simpl. rewrite (Ho left) by congruence.
    split; [rewrite Hn; reflexivity|]. split; [rewrite Hp; reflexivity|].
    split; [reflexivity|].
    intros Hc Hls' Hlr'. apply (amortize_prev_items t son right Hsr Hc Hls' Hlr').
  - split; [reflexivity|]. split; [lia|]. intros _. cbv zeta.
    fold left. fold son.
    destruct (amortize_next_result t left son Hls) as (Hp & Hn & Ho & _).
    cbv zeta in Hp, Hn, Ho.
    tree_simpl. rewrite (Ho right) by congruence.
    split; [rewrite Hp; reflexivity|]. split; [rewrite Hn; reflexivity|].
    split; [reflexivity|].
    intros Hc Hls' Hll'. apply (amortize_next_items t left son Hls Hc Hls' Hll').
Qed.

(** * Merging two nodes *)

(** X6: [merge_node] appends the entries of [nxt] to those of [prev], hands
    the link (and kind) of [nxt] to [prev], and gives the block of [nxt]
    back: it becomes the head of the free list and is no longer dirty.
    No block but [prev] is written. *)
Theorem merge_node_entries t prev nxt :
  let np := deref t prev in
  let nn := deref t nxt in
  let t' := merge_node t prev nxt in
  prev <> nxt ->
  0 <= count (hdr np) -> 0 <= count (hdr nn) ->
  (Z.to_nat (count (hdr np) + count (hdr nn)) <= length (data np))%nat ->
  (Z.to_nat (count (hdr nn)) <= length (data nn))%nat ->
  items (deref t' prev) = items np ++ items nn
  /\ count (hdr (deref t' prev)) = count (hdr np) + count (hdr nn)
  /\ state (hdr (deref t' prev)) = state (hdr nn)
  /\ (forall b, b <> prev -> deref t' b = deref t b)
  /\ free_list t' = nxt :: free_list t
  /\ (nxt ∉ dirty t') /\ (prev ∈ dirty t').
Proof.
  intros np nn t' Hne Hcp Hcn Hlp Hln. unfold t', merge_node. cbv zeta.
  tree_simpl. simpl. tree_simpl. fold np nn.
  repeat split.
  - unfold items. simpl. apply take_append; lia.
  - intros b Hb. tree_simpl. reflexivity.
  - try rewrite !dirty_upd. simpl. set_solver.
  - try rewrite !dirty_upd. try rewrite dirty_modify. simpl. set_solver.
Qed.

(** ** Writes to one field of an entry *)

Lemma length_set_head_count (d : list value_tuple) i c :
  length (set_head_count d i c) = length d.
Proof. apply length_set. Qed.

Lemma length_set_pair (d : list value_tuple) i p : length (set_pair d i p) = length d.
Proof. apply length_set. Qed.

Lemma get_set_head_count_eq (d : list value_tuple) i c :
  0 <= i -> (Z.to_nat i < length d)%nat ->
  get (set_head_count d i c) i
  = ValueTuple (Header (state (head (get d i))) c) (v (get d i)).
Proof. intros. unfold set_head_count, set_head. apply get_set_eq; assumption. Qed.

Lemma get_set_head_count_ne (d : list value_tuple) i j c :
  0 <= i -> 0 <= j -> i <> j -> get (set_head_count d i c) j = get d j.
Proof. intros. unfold set_head_count, set_head. apply get_set_ne; assumption. Qed.

Lemma get_set_pair_eq (d : list value_tuple) i p :
  0 <= i -> (Z.to_nat i < length d)%nat ->
  get (set_pair d i p) i = ValueTuple (head (get d i)) p.
Proof. intros. unfold set_pair. apply get_set_eq; assumption. Qed.

Lemma get_set_pair_ne (d : list value_tuple) i j p :
  0 <= i -> 0 <= j -> i <> j -> get (set_pair d i p) j = get d j.
Proof. intros. unfold set_pair. apply get_set_ne; assumption. Qed.

(** ** The choice of the sibling in [erase_amortize] *)

(** X7: When both siblings of the underfull son [x] hold at least AMORT_SIZE
    entries, [erase_amortize] takes entries from the left one if it holds
    strictly more than the right one, and from the right one otherwise,
    so also when the two counts are equal.  The sibling that is not
    chosen is left as it was, and the father's entries of the two nodes
    involved record their new counts.  The entries that move are
    [delta] entries of the chosen sibling, half the difference of the
    two counts: the last ones of the left sibling go in front of the
    son's entries, or the first ones of the right sibling go behind
    them. *)
Theorem erase_amortize_choice t (pointer x : Z) :
  let d := data (deref t pointer) in
  let son := cache_pointer t in
  let left := get_pointer (head (get d (x - 1))) in
  let right := get_pointer (head (get d (x + 1))) in
  let cl := count (head (get d (x - 1))) in
  let cr := count (head (get d (x + 1))) in
  0 < x -> x <> count (hdr (deref t pointer)) - 1 ->
  (Z.to_nat (x + 1) < length d)%nat ->
  AMORT_SIZE P <= cl -> AMORT_SIZE P <= cr ->
  left <> right -> left <> son -> right <> son ->
  pointer <> left -> pointer <> right -> pointer <> son ->
  let t' := snd (erase_amortize t pointer x) in
  let d' := data (deref t' pointer) in
  fst (erase_amortize t pointer x) = true
  /\ (cr < cl ->
        let delta := Z.shiftr (count (hdr (deref t left)) - count (hdr (deref t son))) 1 in
        count (hdr (deref t' left)) = count (hdr (deref t left)) - delta
        /\ count (hdr (deref t' son)) = count (hdr (deref t son)) + delta
        /\ deref t' right = deref t right
        /\ count (head (get d' (x - 1))) = count (hdr (deref t' left))
        /\ count (head (get d' x)) = count (hdr (deref t' son))
        /\ v (get d' x) = v (get (data (deref t' son)) 0)
        /\ (0 <= count (hdr (deref t son)) <= count (hdr (deref t left)) ->
            (Z.to_nat (count (hdr (deref t left))) <= length (data (deref t left)))%nat ->
            (Z.to_nat (count (hdr (deref t son)) + delta)
             <= length (data (deref t son)))%nat ->
            items (deref t' left)
            = take (Z.to_nat (count (hdr (deref t left)) - delta)) (items (deref t left))
            /\ items (deref t' son)
               = drop (Z.to_nat (count (hdr (deref t left)) - delta)) (items (deref t left))
                 ++ items (deref t son)))
  /\ (cl <= cr ->
        let delta := Z.shiftr (count (hdr (deref t right)) - count (hdr (deref t son))) 1 in
        count (hdr (deref t' right)) = count (hdr (deref t right)) - delta
        /\ count (hdr (deref t' son)) = count (hdr (deref t son)) + delta
        /\ deref t' left = deref t left
        /\ count (head (get d' x)) = count (hdr (deref t' son))
        /\ count (head (get d' (x + 1))) = count (hdr (deref t' right))
        /\ v (get d' (x + 1)) = v (get (data (deref t' right)) 0)
        /\ (0 <= count (hdr (deref t son)) <= count (hdr (deref t right)) ->
            (Z.to_nat (count (hdr (deref t right))) <= length (data (deref t right)))%nat ->
            (Z.to_nat (count (hdr (deref t son)) + delta)
             <= length (data (deref t son)))%nat ->
            items (deref t' son)
            = items (deref t son) ++ take (Z.to_nat delta) (items (deref t right))
            /\ items (deref t' right) = drop (Z.to_nat delta) (items (deref t right)))).
Proof.
  intros d son left right cl cr Hx0 Hxl Hlen Hcl Hcr Hlr Hls Hrs Hpl Hpr Hps.
  unfold erase_amortize. fold d. fold cl. fold cr.
  destruct (Z.eqb_spec x (count (hdr (deref t pointer)) - 1)) as [|_]; [contradiction|].
  destruct (Z.eqb_spec x 0) as [|_]; [lia|].
  destruct (Z.leb_spec (AMORT_SIZE P) cr) as [_|]; [|lia].
  destruct (Z.leb_spec (AMORT_SIZE P) cl) as [_|]; [|lia].
  unfold settle_flags. simpl andb. cbv iota.
  destruct (Z.ltb_spec cr cl) as [Hlt|Hge]; cbv iota beta; simpl fst; simpl snd.
  - split; [reflexivity|]. split; [|lia]. intros _. cbv zeta.
    fold left. fold son.
    destruct (amortize_prev_result t left son Hls) as (Hp & Hn & Ho & _).
    cbv zeta in Hp, Hn, Ho.
    assert (Hd : data (deref (amortize_prev t left son) pointer) = d).
    { rewrite Ho by congruence. reflexivity. }
    tree_simpl. simpl. rewrite Hd.
    rewrite Hp, Hn, (Ho right) by congruence. simpl.
    repeat split.
    + rewrite get_set_pair_ne, get_set_head_count_ne, get_set_head_count_eq
        by (try rewrite length_set_head_count; lia). reflexivity.
    + rewrite get_set_pair_eq, get_set_head_count_eq
        by (rewrite ?length_set_head_count; lia). reflexivity.
    + rewrite get_set_pair_eq by (rewrite ?length_set_head_count; lia). reflexivity.
    + match goal with H : 0 <= _ <= _ |- _ => destruct (shiftr1_half _ _ H) as (Hdl & _) end.
      unfold items. simpl. rewrite take_take. f_equal. lia.
    + match goal with H : 0 <= _ <= _ |- _ => destruct (shiftr1_half _ _ H) as (Hdl & _) end.
      unfold items. simpl. rewrite take_prepend by lia.
      replace (count (hdr (deref t left))
               - Z.shiftr (count (hdr (deref t left)) - count (hdr (deref t son))) 1
               + Z.shiftr (count (hdr (deref t left)) - count (hdr (deref t son))) 1)
        with (count (hdr (deref t left))) by lia.
      reflexivity.
  - split; [reflexivity|]. split; [lia|]. intros _. cbv zeta.
    fold right. fold son.
    assert (Hsr : son <> right) by congruence.
    destruct (amortize_next_result t son right Hsr) as (Hp & Hn & Ho & _).
    cbv zeta in Hp, Hn, Ho.
    assert (Hd : data (deref (amortize_next t son right) pointer) = d).
    { rewrite Ho by congruence. reflexivity. }
    tree_simpl. simpl. rewrite Hd.
    rewrite Hp, Hn, (Ho left) by congruence. simpl.
    repeat split.
    + rewrite get_set_pair_ne, get_set_head_count_ne, get_set_head_count_eq
        by (try rewrite length_set_head_count; lia). reflexivity.
    + rewrite get_set_pair_eq, get_set_head_count_eq
        by (rewrite ?length_set_head_count; lia). reflexivity.
    + rewrite get_set_pair_eq by (rewrite ?length_set_head_count; lia). reflexivity.
    + match goal with H : 0 <= _ <= _ |- _ => destruct (shiftr1_half _ _ H) as (Hdl & _) end.
      unfold items. simpl. rewrite take_append by lia. f_equal.
      rewrite take_take. f_equal. lia.
    + match goal with H : 0 <= _ <= _ |- _ => destruct (shiftr1_half _ _ H) as (Hdl & _) end.
      unfold items. simpl. apply take_shift_down; lia.
Qed.

(** ** The choice of the sibling in [erase_merge] *)


Lemma take_set_middle (d : list value_tuple) (c i : Z) e A g B :
  0 <= i -> length A = Z.to_nat i ->
  take (Z.to_nat c) d = A ++ g :: B ->
  take (Z.to_nat c) (set d i e) = A ++ e :: B.
Proof.
  intros Hi HA Hd. rewrite take_set by assumption. rewrite Hd.
  rewrite insert_app_r_alt by lia.
  replace (Z.to_nat i - length A)%nat with 0%nat by lia. reflexivity.
Qed.

Lemma take_succ_get (d : list value_tuple) (c i : Z) :
  0 <= i < c -> (Z.to_nat c <= length d)%nat ->
  take (Z.to_nat (i + 1)) (take (Z.to_nat c) d)
  = take (Z.to_nat i) (take (Z.to_nat c) d) ++ [get d i].
Proof.
  intros Hi Hc.
  replace (Z.to_nat (i + 1)) with (S (Z.to_nat i)) by lia.
  apply take_S_r. rewrite lookup_take_lt by lia.
  apply lookup_get; lia.
Qed.

Lemma get_mmove_lt (dst src : list value_tuple) doff soff cnt i :
  0 <= i < doff -> (Z.to_nat doff <= length dst)%nat ->
  get (mmove dst doff src soff cnt) i = get dst i.
Proof.
  intros Hi Hd. unfold get, mmove.
  rewrite app_nth1 by (rewrite length_take; lia).
  apply nth_lookup_Some with (d := tuple0).
  rewrite lookup_take_lt by lia.
  apply lookup_get; lia.
Qed.


End Nodes.



(** * Splitting nodes and merging the root's sons *)

(** Proof steps for routines written as a sequence of writes: the
    intermediate trees are named one by one, and the image of a block in
    each of them is computed from its image in the one before. *)

Lemma ok_with {A : Type} (r : result A) (Q : A -> Prop) :
  (exists a, r = Ok a) -> (forall a, r = Ok a -> Q a) -> exists a, r = Ok a /\ Q a.
Proof. intros [a Ha] HQ. exists a. split; [assumption|]. apply HQ. assumption. Qed.

Ltac name_stages H :=
  repeat lazymatch type of H with
  | (let s := ?e in @?b s) = ?y =>
      let s' := fresh "s" in
      pose (s' := e);
      let H' := fresh in
      assert (H' : b s' = y) by exact H;
      clear H; rename H' into H; cbv beta in H
  end.

Ltac rewrite_known :=
  repeat match goal with
  | K : deref ?s ?z = _ |- context [deref ?s ?z] => rewrite K
  end.

Ltac track s b D :=
  eassert (D : deref s b = _);
  [ unfold s; rewrite ?root_deref; tree_simpl; rewrite_known; simpl; reflexivity | ].

Section Split.

Context {key_t T : Type} `{Inst : Instantiation key_t T}.

Local Abbreviation value_pair := (@value_pair key_t T).
Local Abbreviation value_tuple := (@value_tuple key_t T).
Local Abbreviation node := (@node key_t T).
Local Abbreviation tree := (@tree key_t T).

Implicit Types t : tree.

Lemma allocate_result t nw t0 :
  allocate t = Ok (nw, t0) -> nw <> 0 ->
  deref t0 nw = zero_node
  /\ (forall b, b <> nw -> deref t0 b = deref t b)
  /\ cache_pointer t0 = cache_pointer t
  /\ root t0 = root t.
Proof.
  unfold allocate. intros H Hnw.
  assert (Hgen : forall fl nb dt,
    let t1 := Tree (root t) (<[nw := zero_node]> (file t)) (cache_pointer t) fl nb dt in
    deref t1 nw = zero_node
    /\ (forall b, b <> nw -> deref t1 b = deref t b)
    /\ cache_pointer t1 = cache_pointer t /\ root t1 = root t).
  { intros fl nb dt t1. unfold deref. simpl.
    repeat split.
    - destruct (Z.eqb_spec nw 0); [contradiction|]. apply lookup_total_insert_eq.
    - intros b Hb. destruct (Z.eqb_spec b 0); [reflexivity|].
      apply lookup_total_insert_ne. congruence. }
  destruct (free_list t) as [|i rest].
  - destruct (next_block t <? MAXN_SIZE); [|discriminate].
    injection H as <- <-. apply Hgen.
  - injection H as <- <-. apply Hgen.
Qed.

Lemma real_index_pack (i : Z) (f : node_type) (c : Z) :
  0 <= i -> real_index (Header (pack_index i f) c) = i.
Proof.
  intros Hi. unfold real_index, pack_index. simpl. destruct f.
  - pose proof (lnot_nonneg_neg i Hi).
    destruct (Z.ltb_spec (Z.lnot i) 0); [apply lnot_lnot|lia].
  - destruct (Z.ltb_spec i 0); [lia|reflexivity].
Qed.

Lemma is_inner_pack (i : Z) (b : bool) (c : Z) :
  0 <= i -> is_inner (Header (pack_index i (node_type_of_bool b)) c) = b.
Proof.
  intros Hi. unfold is_inner, pack_index. simpl. destruct b; simpl.
  - apply Z.leb_le. assumption.
  - pose proof (lnot_nonneg_neg i Hi). apply Z.leb_gt. lia.
Qed.

Lemma shiftr1_bounds c : 0 <= c -> 0 <= Z.shiftr c 1 <= c.
Proof.
  intros Hc. rewrite shiftr1_div2.
  pose proof (Z.div_mod c 2 ltac:(lia)).
  pose proof (Z.mod_pos_bound c 2 ltac:(lia)). lia.
Qed.

Lemma length_zero_data : length (data (@zero_node key_t T Inst)) = Z.to_nat (BLOCK_SIZE P + 1).
Proof. apply length_replicate. Qed.

Lemma take_split_at (d : list value_tuple) (c i : Z) :
  0 <= i < c -> (Z.to_nat c <= length d)%nat ->
  take (Z.to_nat c) d
  = take (Z.to_nat i) (take (Z.to_nat c) d)
    ++ get d i :: drop (Z.to_nat (i + 1)) (take (Z.to_nat c) d).
Proof.
  intros Hi Hc.
  rewrite <- (take_drop (Z.to_nat (i + 1)) (take (Z.to_nat c) d)) at 1.
  rewrite take_succ_get by lia. rewrite <- app_assoc. reflexivity.
Qed.

Lemma take_past_middle (A B : list value_tuple) e :
  take (S (length A)) (A ++ e :: B) = A ++ [e].
Proof. induction A as [|a A IH]; simpl; [rewrite take_0|rewrite IH]; reflexivity. Qed.

Lemma drop_past_middle (A B : list value_tuple) e :
  drop (S (length A)) (A ++ e :: B) = B.
Proof. induction A as [|a A IH]; simpl; [rewrite drop_0; reflexivity|exact IH]. Qed.

Lemma father_after_split (d : list value_tuple) (cnt x pc : Z) e :
  let d1 := set_head_count d x pc in
  let its := take (Z.to_nat cnt) d in
  0 <= x < cnt -> (Z.to_nat (cnt + 1) <= length d)%nat ->
  take (Z.to_nat (cnt + 1)) (set (mmove d1 (x + 1 + 1) d1 (x + 1) (cnt - (x + 1))) (x + 1) e)
  = take (Z.to_nat x) its
    ++ ValueTuple (Header (state (head (get d x))) pc) (v (get d x))
    :: e :: drop (Z.to_nat (x + 1)) its.
Proof.
  intros d1 its Hx Hlen.
  rewrite take_insert_at by (unfold d1; rewrite ?length_set_head_count; lia).
  assert (H1 : take (Z.to_nat cnt) d1
    = take (Z.to_nat x) its
      ++ ValueTuple (Header (state (head (get d x))) pc) (v (get d x))
      :: drop (Z.to_nat (x + 1)) its).
  { unfold d1, set_head_count, set_head.
    apply take_set_middle with (g := get d x);
      [lia | unfold its; rewrite !length_take; lia |].
    apply take_split_at; lia. }
  rewrite H1.
  assert (HA : length (take (Z.to_nat x) its) = Z.to_nat x)
    by (unfold its; rewrite !length_take; lia).
  generalize dependent (take (Z.to_nat x) its). intros A _ HA.
  generalize (drop (Z.to_nat (x + 1)) its). intros B.
  replace (Z.to_nat (x + 1)) with (S (length A)) by lia.
  rewrite take_past_middle, drop_past_middle.
  rewrite <- app_assoc. reflexivity.
Qed.

(** X9: [split_node] cuts the son in [cache_pointer] in two: a newly
    allocated block takes the upper half of its entries (half the count,
    rounded down) and its old link, the son keeps the rest and is linked
    to the new block, keeping its kind.  In the father, entry [x]
    records the son's new count, a new entry at [x + 1] names the new
    block with its count and its first pair, and the entries above are
    shifted up by one; the father's own count is left as it was. *)
Theorem split_node_entries t (pointer x nw : Z) t0 :
  let prev := cache_pointer t in
  let np := deref t prev in
  let c := count (hdr np) in
  let d := data (deref t pointer) in
  let cnt := count (hdr (deref t pointer)) in
  let its := take (Z.to_nat cnt) d in
  allocate t = Ok (nw, t0) ->
  0 < nw -> nw <> prev -> nw <> pointer -> prev <> pointer ->
  0 <= c -> (Z.to_nat c <= length (data np))%nat ->
  Z.shiftr c 1 <= BLOCK_SIZE P + 1 ->
  0 <= x < cnt -> (Z.to_nat (cnt + 1) <= length d)%nat ->
  exists t', split_node t pointer x = Ok t'
    /\ items (deref t' prev) ++ items (deref t' nw) = items np
    /\ count (hdr (deref t' prev)) = c - Z.shiftr c 1
    /\ count (hdr (deref t' nw)) = Z.shiftr c 1
    /\ next (deref t' prev) = nw
    /\ is_inner (hdr (deref t' prev)) = is_inner (hdr np)
    /\ state (hdr (deref t' nw)) = state (hdr np)
    /\ hdr (deref t' pointer) = hdr (deref t pointer)
    /\ take (Z.to_nat (cnt + 1)) (data (deref t' pointer))
       = take (Z.to_nat x) its
         ++ ValueTuple (Header (state (head (get d x))) (c - Z.shiftr c 1)) (v (get d x))
         :: ValueTuple (Header (state (hdr (deref t' prev))) (Z.shiftr c 1))
                       (v (get (data (deref t' nw)) 0))
         :: drop (Z.to_nat (x + 1)) its.
Proof.
  intros prev np c d cnt its Hal Hnw Hnp Hnq Hpq Hc Hlen Hhalf Hx Hlend.
  destruct (allocate_result t nw t0 Hal ltac:(lia)) as (Hz & Ho & Hcp & _).
  pose proof (shiftr1_bounds c Hc) as Hh.
  assert (Hprev0 : deref t0 prev = np) by (apply Ho; congruence).
  assert (Hptr0 : deref t0 pointer = deref t pointer) by (apply Ho; congruence).
  apply ok_with.
  { unfold split_node. rewrite Hal. eexists. reflexivity. }
  intros t' H. cbv beta delta [split_node] in H.
  name_stages H. rewrite Hal in H.
  cbv beta iota delta [mbind result_bind rbind] in H.
  name_stages H. injection H as <-.
  change s with prev in *. clear s.
  track s0 nw Ds0_nw. track s0 prev Ds0_prev. track s0 pointer Ds0_pointer.
  track s1 nw Ds1_nw. track s1 prev Ds1_prev. track s1 pointer Ds1_pointer.
  track s2 nw Ds2_nw. track s2 prev Ds2_prev. track s2 pointer Ds2_pointer.
  track s3 nw Ds3_nw. track s3 prev Ds3_prev. track s3 pointer Ds3_pointer.
  track s4 nw Ds4_nw. track s4 prev Ds4_prev. track s4 pointer Ds4_pointer.
  track s5 nw Ds5_nw. track s5 prev Ds5_prev. track s5 pointer Ds5_pointer.
  assert (D7n : deref s7 nw = deref s5 nw)
    by (unfold s7; destruct (s6 <? _); tree_simpl; reflexivity).
  assert (D7p : deref s7 prev = deref s5 prev)
    by (unfold s7; destruct (s6 <? _); tree_simpl; reflexivity).
  assert (D7f : deref s7 pointer
    = with_data (deref s5 pointer)
        (mmove (data (deref s5 pointer)) (s6 + 1) (data (deref s5 pointer)) s6
               (cnt - s6))).
  { unfold s7. rewrite Ds5_pointer. simpl. fold cnt. fold d.
    destruct (Z.ltb_spec s6 cnt) as [Hlt|Hge]; tree_simpl; rewrite ?Ds5_pointer; [reflexivity|].
    simpl. fold d. replace (cnt - s6) with 0 by (unfold s6; lia).
    rewrite mmove_zero by (rewrite length_set_head_count; unfold s6; lia).
    reflexivity. }
  rewrite Ds5_nw in D7n. rewrite Ds5_prev in D7p. rewrite Ds5_pointer in D7f. simpl in D7f.
  track s8 nw Ds8_nw. track s8 prev Ds8_prev. track s8 pointer Ds8_pointer.
  track s9 nw Ds9_nw. track s9 prev Ds9_prev. track s9 pointer Ds9_pointer.
  track s10 nw Ds10_nw. track s10 prev Ds10_prev. track s10 pointer Ds10_pointer.
  rewrite Ds10_nw, Ds10_prev, Ds10_pointer. simpl. fold c. fold d. fold cnt.
  refine (conj _ (conj eq_refl (conj eq_refl (conj _ (conj _
           (conj eq_refl (conj eq_refl _))))))).
  - unfold items. simpl. fold c.
    rewrite take_copy_from by (rewrite ?length_replicate; lia).
    replace (c - Z.shiftr c 1 + Z.shiftr c 1) with c by lia.
    rewrite <- (take_drop (Z.to_nat (c - Z.shiftr c 1)) (take (Z.to_nat c) (data np))) at 2.
    f_equal. rewrite take_take. f_equal. lia.
  - apply real_index_pack. lia.
  - apply is_inner_pack. lia.
  - rewrite set_pair_head_fields
      by (unfold s6; rewrite ?length_mmove; rewrite ?length_set_head_count; lia).
    apply father_after_split; assumption.
Qed.



(** X10: [split_root] hands the entries of the root to two newly allocated
    inner nodes, the lower half (half the count, rounded down) to the
    first and the rest to the second, links the first to the second and
    marks the second as the last of its level.  The root is left with
    two entries that name the two nodes with their counts, the second
    one carrying the first pair of the second node. *)
Theorem split_root_entries t (a b : Z) t0 t1 :
  let r := root t in
  let c := count (hdr r) in
  allocate t = Ok (a, t0) -> allocate t0 = Ok (b, t1) ->
  a <> 0 -> b <> 0 -> a <> b ->
  0 <= c -> (Z.to_nat c <= length (data r))%nat -> (2 <= length (data r))%nat ->
  Z.shiftr (c + 1) 1 <= BLOCK_SIZE P + 1 ->
  exists t', split_root t = Ok t'
    /\ items (deref t' a) ++ items (deref t' b) = items r
    /\ hdr (deref t' a) = Header b (Z.shiftr c 1)
    /\ hdr (deref t' b) = Header MAXN_SIZE (Z.shiftr (c + 1) 1)
    /\ hdr (root t') = Header (state (hdr r)) 2
    /\ take 2 (data (root t'))
       = [ ValueTuple (Header a (Z.shiftr c 1)) (v (get (data r) 0));
           ValueTuple (Header b (Z.shiftr (c + 1) 1)) (v (get (data (deref t' b)) 0)) ].
Proof.
  intros r c Ha Hb Ha0 Hb0 Hab Hc Hlen Hlen2 Hhalf.
  destruct (allocate_result t a t0 Ha Ha0) as (Hza & Hoa & _ & Hra).
  destruct (allocate_result t0 b t1 Hb Hb0) as (Hzb & Hob & _ & Hrb).
  assert (Da : deref t1 a = zero_node) by (rewrite Hob by congruence; exact Hza).
  assert (Dr : deref t1 0 = r).
  { rewrite Hob, Hoa by congruence. reflexivity. }
  assert (Hr1 : root t1 = r) by (rewrite Hrb, Hra; reflexivity).
  pose proof (shiftr1_bounds c Hc) as Hh.
  assert (Hsum : Z.shiftr c 1 + Z.shiftr (c + 1) 1 = c
                 /\ Z.shiftr c 1 <= Z.shiftr (c + 1) 1).
  { rewrite !shiftr1_div2.
    pose proof (Z.div_mod c 2 ltac:(lia)).
    pose proof (Z.mod_pos_bound c 2 ltac:(lia)).
    pose proof (Z.div_mod (c + 1) 2 ltac:(lia)).
    pose proof (Z.mod_pos_bound (c + 1) 2 ltac:(lia)). lia. }
  destruct Hsum as (Hsum & Hle).
  apply ok_with.
  { unfold split_root. rewrite Ha. simpl. rewrite Hb. eexists. reflexivity. }
  intros t' H. cbv beta delta [split_root] in H.
  rewrite Ha in H. cbv beta iota delta [mbind result_bind rbind] in H.
  rewrite Hb in H. cbv beta iota delta [mbind result_bind rbind] in H.
  name_stages H. injection H as <-.
track s a Es_a. track s b Es_b. track s 0 Es_r.
  track s0 a Es0_a. track s0 b Es0_b. track s0 0 Es0_r.
  track s1 a Es1_a. track s1 b Es1_b. track s1 0 Es1_r.
  track s2 a Es2_a. track s2 b Es2_b. track s2 0 Es2_r.
  track s3 a Es3_a. track s3 b Es3_b. track s3 0 Es3_r.
  track s4 a Es4_a. track s4 b Es4_b. track s4 0 Es4_r.
  track s5 a Es5_a. track s5 b Es5_b. track s5 0 Es5_r.
  track s6 a Es6_a. track s6 b Es6_b. track s6 0 Es6_r.
  track s7 a Es7_a. track s7 b Es7_b. track s7 0 Es7_r.
  track s8 a Es8_a. track s8 b Es8_b. track s8 0 Es8_r.
  rewrite root_deref, Es8_a, Es8_b, Es8_r. simpl. fold c.
refine (conj _ (conj eq_refl (conj eq_refl (conj eq_refl _)))).
  - unfold items. simpl. fold c.
    rewrite !take_copy_from by (rewrite ?length_replicate; lia).
    rewrite Hsum, drop_0.
    rewrite <- (take_drop (Z.to_nat (Z.shiftr c 1)) (take (Z.to_nat c) (data r))) at 2.
    f_equal. rewrite take_take. f_equal. lia.
  - generalize (v (get (mmove (replicate (Z.to_nat (BLOCK_SIZE P + 1)) tuple0) 0
                         (data r) (Z.shiftr c 1) (Z.shiftr (c + 1) 1)) 0)).
    intros p.
    destruct (data r) as [|e0 [|e1 rest]]; simpl in Hlen2; try lia.
    reflexivity.
Qed.

(** X11: [merge_root] pulls the entries of the root's two sons into the root:
    the son in [cache_pointer] is the left one if [x] is 0 and the right
    one otherwise, the root's entries become those of the left son
    followed by those of the right son, both blocks are recycled, and
    the root's count is set to one more than the number of entries (the
    caller decrements it). *)
Theorem merge_root_entries t (x : Z) :
  let prev := if x =? 0 then cache_pointer t
              else get_pointer (head (get (data (root t)) 0)) in
  let nxt := if x =? 0 then get_pointer (head (get (data (root t)) 1))
             else cache_pointer t in
  let np := deref t prev in
  let nn := deref t nxt in
  let t' := merge_root t x in
  prev <> 0 -> nxt <> 0 ->
  0 <= count (hdr np) -> 0 <= count (hdr nn) ->
  (Z.to_nat (count (hdr np)) <= length (data np))%nat ->
  (Z.to_nat (count (hdr nn)) <= length (data nn))%nat ->
  (Z.to_nat (count (hdr np) + count (hdr nn)) <= length (data (root t)))%nat ->
  take (Z.to_nat (count (hdr np) + count (hdr nn))) (data (root t'))
  = items np ++ items nn
  /\ hdr (root t') = Header (state (hdr (root t))) (count (hdr np) + count (hdr nn) + 1)
  /\ free_list t' = nxt :: prev :: free_list t
  /\ (forall b, b <> 0 -> deref t' b = deref t b).
Proof.
  intros prev nxt np nn t' Hp0 Hn0 Hcp Hcn Hlp Hln Hlr.
  assert (H : merge_root t x = t') by reflexivity. clearbody t'.
  cbv beta delta [merge_root] in H. name_stages H. subst t'.
  change s with prev in *. change s0 with nxt in *. clear s s0.
  assert (D1p : deref s1 prev = np) by (unfold s1; tree_simpl; reflexivity).
  assert (D1n : deref s1 nxt = nn) by (unfold s1; tree_simpl; reflexivity).
  assert (D2p : deref s2 prev = np) by (unfold s2; tree_simpl; assumption).
  assert (D2n : deref s2 nxt = nn) by (unfold s2; tree_simpl; assumption).
  track s1 0 D1r. track s2 0 D2r. track s3 0 D3r.
  change (root (recycle s4 nxt)) with (deref s3 0). rewrite D3r. simpl.
  change (deref t 0) with (root t).
  refine (conj _ (conj eq_refl (conj _ _))).
  - rewrite take_append by (rewrite ?length_mmove; lia).
    rewrite take_copy_from by lia.
    rewrite drop_0. reflexivity.
  - unfold s4, s3, s2, s1. simpl. tree_simpl. reflexivity.
  - intros b Hb. unfold s4, s3, s2, s1. tree_simpl. reflexivity.
Qed.

End Split.



(** * Insertion into and erasure from a leaf *)

Section Leaf.

Context {key_t T : Type} `{Inst : Instantiation key_t T} {Law : Lawful Inst}.

Local Abbreviation value_pair := (@value_pair key_t T).
Local Abbreviation value_tuple := (@value_tuple key_t T).
Local Abbreviation node := (@node key_t T).
Local Abbreviation tree := (@tree key_t T).

Implicit Types t : tree.

Lemma get_mmove_mid (dst src : list value_tuple) doff soff cnt j :
  0 <= doff <= j -> j < doff + cnt -> 0 <= soff ->
  (Z.to_nat doff <= length dst)%nat -> (Z.to_nat (soff + cnt) <= length src)%nat ->
  get (mmove dst doff src soff cnt) j = get src (soff + (j - doff)).
Proof.
  intros Hd Hj Hs Hld Hls. unfold get, mmove.
  rewrite !nth_lookup. f_equal.
  rewrite lookup_app_r by (rewrite length_take; lia).
  rewrite length_take.
  rewrite lookup_app_l by (rewrite length_take, length_drop; lia).
  rewrite lookup_take_lt by lia.
  rewrite lookup_drop. f_equal. lia.
Qed.

Lemma insert_outer_result t p x0 k x pos :
  let h := head (get (data (deref t p)) x0) in
  let pointer := get_pointer h in
  let cnt := count h in
  let d := data (deref t pointer) in
  p <> pointer ->
  binary_search d k x 0 cnt = Ok pos -> 0 <= pos ->
  exists t', insert_outer t (HEntry p x0) k x = Ok (true, t')
    /\ deref t' pointer
       = Node (Header (state (hdr (deref t pointer))) (count (hdr (deref t pointer)) + 1))
              (set_pair (mmove d (pos + 1) d pos (cnt - pos)) pos (ValuePair k x))
    /\ deref t' p
       = with_data (deref t p)
           (set_head_count (data (deref t p)) x0 (count (hdr (deref t pointer)) + 1))
    /\ cache_pointer t' = pointer
    /\ (forall b, b <> pointer -> b <> p -> deref t' b = deref t b).
Proof.
  intros h pointer cnt d Hne Hbs Hpos.
  unfold insert_outer. change (read_head t (HEntry p x0)) with h.
  fold pointer. fold cnt. fold d. rewrite Hbs. simpl.
  destruct (Z.ltb_spec pos 0) as [|_]; [lia|].
  eexists. split; [reflexivity|].
  unfold write_head_count. tree_simpl. simpl. tree_simpl. fold d.
  repeat split. intros b Hb Hbp. tree_simpl. reflexivity.
Qed.

Lemma erase_outer_result t p x0 k x pos :
  let h := head (get (data (deref t p)) x0) in
  let pointer := get_pointer h in
  let cnt := count h in
  let d := data (deref t pointer) in
  p <> pointer ->
  binary_search d k x 0 cnt = Ok (Z.lnot pos) -> 0 <= pos ->
  exists t', erase_outer t (HEntry p x0) k x = Ok (true, t')
    /\ deref t' pointer
       = Node (Header (state (hdr (deref t pointer))) (count (hdr (deref t pointer)) - 1))
              (mmove d pos d (pos + 1) (cnt - pos - 1))
    /\ deref t' p
       = with_data (deref t p)
           (set_head_count (data (deref t p)) x0 (count (hdr (deref t pointer)) - 1))
    /\ cache_pointer t' = pointer
    /\ (forall b, b <> pointer -> b <> p -> deref t' b = deref t b).
Proof.
  intros h pointer cnt d Hne Hbs Hpos.
  unfold erase_outer. change (read_head t (HEntry p x0)) with h.
  fold pointer. fold cnt. fold d. rewrite Hbs. simpl. rewrite lnot_lnot.
  destruct (Z.ltb_spec pos 0) as [|_]; [lia|].
  eexists. split; [reflexivity|].
  unfold write_head_count. tree_simpl. simpl. tree_simpl. fold d.
  repeat split. intros b Hb Hbp. tree_simpl. reflexivity.
Qed.

Lemma erase_outer_lists t r (k : key_t) (x : T) b t' :
  erase_outer t r k x = Ok (b, t') ->
  free_list t' = free_list t /\ next_block t' = next_block t.
Proof.
  unfold erase_outer. intros H.
  destruct (binary_search _ k x 0 _) as [pos| |]; simpl in H; try discriminate.
  destruct (Z.lnot pos <? 0); injection H as <- <-; [auto|].
  destruct r; unfold write_head_count; simpl; tree_simpl; auto.
Qed.

Lemma insert_outer_lists t r (k : key_t) (x : T) b t' :
  insert_outer t r k x = Ok (b, t') ->
  free_list t' = free_list t /\ next_block t' = next_block t.
Proof.
  unfold insert_outer. intros H.
  destruct (binary_search _ k x 0 _) as [pos| |]; simpl in H; try discriminate.
  destruct (pos <? 0); injection H as <- <-; [auto|].
  destruct r; unfold write_head_count; simpl; tree_simpl; auto.
Qed.

(** X12: [insert_outer] on a leaf whose pairs are strictly ascending, reached
    through entry [x0] of its father [p]: a pair that is already there
    is refused and nothing is written; a new pair is put at the position
    that keeps the pairs ascending, the entries before it stay, the ones
    from it on move up by one, the leaf's count and the father's record
    of it grow by one, and the leaf is left in [cache_pointer]. *)
Theorem insert_outer_sorted t (p x0 : Z) (k : key_t) (x : T) :
  let h := head (get (data (deref t p)) x0) in
  let pointer := get_pointer h in
  let cnt := count h in
  let d := data (deref t pointer) in
  p <> pointer -> 0 <= x0 -> (Z.to_nat x0 < length (data (deref t p)))%nat ->
  count (hdr (deref t pointer)) = cnt -> 0 <= cnt < 2 ^ 30 ->
  (Z.to_nat (cnt + 1) <= length d)%nat ->
  sorted_range d 0 cnt ->
  ((exists m, 0 <= m < cnt /\ v (get d m) = ValuePair k x) ->
     insert_outer t (HEntry p x0) k x = Ok (false, t))
  /\ ((forall m, 0 <= m < cnt -> v (get d m) <> ValuePair k x) ->
      exists t' pos, insert_outer t (HEntry p x0) k x = Ok (true, t')
        /\ 0 <= pos <= cnt
        /\ (forall j, 0 <= j < pos ->
              get (data (deref t' pointer)) j = get d j)
        /\ v (get (data (deref t' pointer)) pos) = ValuePair k x
        /\ (forall j, pos < j <= cnt ->
              get (data (deref t' pointer)) j = get d (j - 1))
        /\ sorted_range (data (deref t' pointer)) 0 (cnt + 1)
        /\ hdr (deref t' pointer) = Header (state (hdr (deref t pointer))) (cnt + 1)
        /\ head (get (data (deref t' p)) x0) = Header (state h) (cnt + 1)
        /\ cache_pointer t' = pointer
        /\ (forall b, b <> pointer -> b <> p -> deref t' b = deref t b)).
Proof.
  intros h pointer cnt d Hne Hx0 Hx0l Hcnt Hc Hlen Hs.
  destruct (binary_search_spec d k x 0 cnt Hs ltac:(lia) ltac:(lia))
    as (res & Hres & Hcase).
  split.
  - intros (m & Hm & Heq).
    destruct Hcase as [(Hb & Hlo & Hhi)|(m' & -> & Hm' & Heq')].
    + exfalso. destruct (Z.lt_ge_cases m res).
      * specialize (Hlo m ltac:(lia)). rewrite Heq in Hlo. exact (p_lt_irrefl _ Hlo).
      * specialize (Hhi m ltac:(lia)). rewrite Heq in Hhi. exact (p_lt_irrefl _ Hhi).
    + unfold insert_outer. change (read_head t (HEntry p x0)) with h.
      fold pointer. fold cnt. fold d. rewrite Hres. simpl.
      pose proof (lnot_nonneg_neg m' ltac:(lia)).
      destruct (Z.ltb_spec (Z.lnot m') 0); [reflexivity|lia].
  - intros Hnone.
    destruct Hcase as [(Hb & Hlo & Hhi)|(m' & _ & Hm' & Heq')];
      [|exfalso; exact (Hnone m' Hm' Heq')].
    destruct (insert_outer_result t p x0 k x res Hne Hres ltac:(lia))
      as (t' & Hrun & Hleaf & Hfather & Hcache & Hframe).
    fold h in Hleaf, Hfather, Hcache. fold pointer in Hleaf, Hfather, Hcache, Hframe.
    fold cnt in Hleaf. fold d in Hleaf. rewrite Hcnt in Hleaf, Hfather.
    exists t', res. split; [exact Hrun|]. split; [lia|].
    rewrite Hleaf, Hfather. simpl.
    assert (Hbefore : forall j, 0 <= j < res ->
      get (set_pair (mmove d (res + 1) d res (cnt - res)) res (ValuePair k x)) j = get d j).
    { intros j Hj. rewrite get_set_pair_ne by lia. apply get_mmove_lt; lia. }
    assert (Hat : v (get (set_pair (mmove d (res + 1) d res (cnt - res)) res
                            (ValuePair k x)) res) = ValuePair k x).
    { rewrite get_set_pair_eq by (rewrite ?length_mmove; lia). reflexivity. }
    assert (Hafter : forall j, res < j <= cnt ->
      get (set_pair (mmove d (res + 1) d res (cnt - res)) res (ValuePair k x)) j
      = get d (j - 1)).
    { intros j Hj. rewrite get_set_pair_ne by lia.
      rewrite get_mmove_mid by lia. f_equal. lia. }
    refine (conj Hbefore (conj Hat (conj Hafter (conj _ (conj eq_refl
             (conj _ (conj Hcache Hframe))))))).
    + intros i j Hi Hij Hj. unfold p_lt.
      destruct (Z.lt_trichotomy i res) as [Hir|[->|Hir]];
        destruct (Z.lt_trichotomy j res) as [Hjr|[->|Hjr]]; try lia.
      * rewrite !Hbefore by lia. apply Hs; lia.
      * rewrite Hbefore by lia. rewrite Hat. apply Hlo. lia.
      * rewrite Hbefore, Hafter by lia.
        apply p_lt_trans with (b := ValuePair k x); [apply Hlo|apply Hhi]; lia.
      * rewrite Hat, Hafter by lia. apply Hhi. lia.
      * rewrite !Hafter by lia. apply Hs; lia.
    + rewrite get_set_head_count_eq by lia. reflexivity.
Qed.

(** X13: [erase_outer] on a leaf whose pairs are strictly ascending, reached
    through entry [x0] of its father [p]: a pair that is not there leaves
    everything as it was; a pair found at position [m] is removed, the
    entries before it stay, the ones after it move down by one, the
    pairs stay ascending and no longer contain the erased one, the
    leaf's count and the father's record of it shrink by one, and the
    leaf is left in [cache_pointer]. *)
Theorem erase_outer_sorted t (p x0 : Z) (k : key_t) (x : T) :
  let h := head (get (data (deref t p)) x0) in
  let pointer := get_pointer h in
  let cnt := count h in
  let d := data (deref t pointer) in
  p <> pointer -> 0 <= x0 -> (Z.to_nat x0 < length (data (deref t p)))%nat ->
  count (hdr (deref t pointer)) = cnt -> 0 <= cnt < 2 ^ 30 ->
  (Z.to_nat cnt <= length d)%nat ->
  sorted_range d 0 cnt ->
  ((forall m, 0 <= m < cnt -> v (get d m) <> ValuePair k x) ->
     erase_outer t (HEntry p x0) k x = Ok (false, t))
  /\ (forall m, 0 <= m < cnt -> v (get d m) = ValuePair k x ->
      exists t', erase_outer t (HEntry p x0) k x = Ok (true, t')
        /\ (forall j, 0 <= j < m ->
              get (data (deref t' pointer)) j = get d j)
        /\ (forall j, m <= j < cnt - 1 ->
              get (data (deref t' pointer)) j = get d (j + 1))
        /\ sorted_range (data (deref t' pointer)) 0 (cnt - 1)
        /\ (forall j, 0 <= j < cnt - 1 ->
              v (get (data (deref t' pointer)) j) <> ValuePair k x)
        /\ hdr (deref t' pointer) = Header (state (hdr (deref t pointer))) (cnt - 1)
        /\ head (get (data (deref t' p)) x0) = Header (state h) (cnt - 1)
        /\ cache_pointer t' = pointer
        /\ (forall b, b <> pointer -> b <> p -> deref t' b = deref t b)).
Proof.
  intros h pointer cnt d Hne Hx0 Hx0l Hcnt Hc Hlen Hs.
  destruct (binary_search_spec d k x 0 cnt Hs ltac:(lia) ltac:(lia))
    as (res & Hres & Hcase).
  split.
  - intros Hnone.
    destruct Hcase as [(Hb & Hlo & Hhi)|(m' & _ & Hm' & Heq')];
      [|exfalso; exact (Hnone m' Hm' Heq')].
    unfold erase_outer. change (read_head t (HEntry p x0)) with h.
    fold pointer. fold cnt. fold d. rewrite Hres. simpl.
    pose proof (lnot_nonneg_neg res ltac:(lia)).
    destruct (Z.ltb_spec (Z.lnot res) 0); [reflexivity|lia].
  - intros m Hm Heq.
    assert (Hres' : binary_search d k x 0 cnt = Ok (Z.lnot m)).
    { rewrite Hres. f_equal.
      destruct Hcase as [(Hb & Hlo & Hhi)|(m' & -> & Hm' & Heq')].
      - exfalso. destruct (Z.lt_ge_cases m res).
        + specialize (Hlo m ltac:(lia)). rewrite Heq in Hlo. exact (p_lt_irrefl _ Hlo).
        + specialize (Hhi m ltac:(lia)). rewrite Heq in Hhi. exact (p_lt_irrefl _ Hhi).
      - f_equal. destruct (Z.lt_trichotomy m m') as [H|[H|H]]; [|congruence|].
        + exfalso. pose proof (Hs m m' ltac:(lia) H ltac:(lia)) as Hlt.
          rewrite Heq, Heq' in Hlt. exact (p_lt_irrefl _ Hlt).
        + exfalso. pose proof (Hs m' m ltac:(lia) H ltac:(lia)) as Hlt.
          rewrite Heq, Heq' in Hlt. exact (p_lt_irrefl _ Hlt). }
    destruct (erase_outer_result t p x0 k x m Hne Hres' ltac:(lia))
      as (t' & Hrun & Hleaf & Hfather & Hcache & Hframe).
    fold h in Hleaf, Hfather, Hcache. fold pointer in Hleaf, Hfather, Hcache, Hframe.
    fold cnt in Hleaf. fold d in Hleaf. rewrite Hcnt in Hleaf, Hfather.
    exists t'. split; [exact Hrun|].
    rewrite Hleaf, Hfather. simpl.
    assert (Hbefore : forall j, 0 <= j < m ->
      get (mmove d m d (m + 1) (cnt - m - 1)) j = get d j).
    { intros j Hj. apply get_mmove_lt; lia. }
    assert (Hafter : forall j, m <= j < cnt - 1 ->
      get (mmove d m d (m + 1) (cnt - m - 1)) j = get d (j + 1)).
    { intros j Hj. rewrite get_mmove_mid by lia. f_equal. lia. }
    refine (conj Hbefore (conj Hafter (conj _ (conj _ (conj eq_refl
             (conj _ (conj Hcache Hframe))))))).
    + intros i j Hi Hij Hj.
      destruct (Z.lt_ge_cases i m) as [Him|Him];
        destruct (Z.lt_ge_cases j m) as [Hjm|Hjm]; try lia.
      * rewrite !Hbefore by lia. apply Hs; lia.
      * rewrite Hbefore, Hafter by lia. apply Hs; lia.
      * rewrite !Hafter by lia. apply Hs; lia.
    + intros j Hj Hj'.
      destruct (Z.lt_ge_cases j m) as [Hjm|Hjm].
      * rewrite Hbefore in Hj' by lia.
        pose proof (Hs j m ltac:(lia) Hjm ltac:(lia)) as Hlt.
        rewrite Heq, Hj' in Hlt. exact (p_lt_irrefl _ Hlt).
      * rewrite Hafter in Hj' by lia.
        pose proof (Hs m (j + 1) ltac:(lia) ltac:(lia) ltac:(lia)) as Hlt.
        rewrite Heq, Hj' in Hlt. exact (p_lt_irrefl _ Hlt).
    + rewrite get_set_head_count_eq by lia. reflexivity.
Qed.

End Leaf.



(** * Queries *)

Section Query.

Context {key_t T : Type} `{Inst : Instantiation key_t T} {Law : Lawful Inst}.

Local Abbreviation value_pair := (@value_pair key_t T).
Local Abbreviation value_tuple := (@value_tuple key_t T).
Local Abbreviation node := (@node key_t T).
Local Abbreviation tree := (@tree key_t T).

Implicit Types t : tree.

Lemma take_as_seqZ (d : list value_tuple) (c : Z) :
  0 <= c -> (Z.to_nat c <= length d)%nat ->
  take (Z.to_nat c) d = map (get d) (seqZ 0 c).
Proof.
  intros Hc Hlen. apply list_eq. intros i.
  change (map (get d) (seqZ 0 c)) with (get d <$> seqZ 0 c).
  rewrite list_lookup_fmap.
  destruct (Nat.lt_ge_cases i (Z.to_nat c)) as [Hi|Hi].
  - rewrite lookup_take_lt by lia.
    rewrite lookup_seqZ_lt by lia. simpl.
    replace i with (Z.to_nat (0 + Z.of_nat i)) at 1 by lia.
    apply lookup_get; lia.
  - rewrite lookup_take_ge by lia.
    rewrite lookup_seqZ_ge by lia. reflexivity.
Qed.

Lemma scan_block_spec (d : list value_tuple) k (func : T -> bool) cnt :
  forall fuel x out,
    0 <= x <= cnt -> (Z.to_nat (cnt - x) <= fuel)%nat ->
    exists e, x <= e <= cnt
      /\ (forall j, x <= j < e -> has_key k (get d j) = true)
      /\ (e < cnt -> has_key k (get d e) = false)
      /\ scan_block fuel d k func x cnt out
         = Ok (e <? cnt,
               out ++ List.filter func (map (fun j => val (v (get d j))) (seqZ x (e - x)))).
Proof.
  induction fuel as [|fuel IH]; intros x out Hx Hf.
  - assert (x = cnt) as -> by lia. exists cnt. simpl. rewrite Z.eqb_refl.
    rewrite Z.ltb_irrefl, Z.sub_diag. simpl. rewrite app_nil_r.
    repeat split; intros; lia.
  - simpl. destruct (Z.eqb_spec x cnt) as [->|Hne].
    + exists cnt. rewrite Z.ltb_irrefl, Z.sub_diag. simpl. rewrite app_nil_r.
      repeat split; intros; lia.
    + fold (has_key k (get d x)).
      destruct (has_key k (get d x)) eqn:Hk; simpl.
      * destruct (IH (x + 1) (if func (val (v (get d x)))
                              then out ++ [val (v (get d x))] else out)
                   ltac:(lia) ltac:(lia)) as (e & He & Hrun & Hstop & Hres).
        exists e. split; [lia|]. split.
        { intros j Hj. destruct (Z.eq_dec j x) as [->|]; [assumption|]. apply Hrun. lia. }
        split; [assumption|].
        rewrite Hres. f_equal. f_equal.
        rewrite (seqZ_cons x (e - x)) by lia. simpl.
        replace (Z.succ x) with (x + 1) by lia.
        replace (Z.pred (e - x)) with (e - (x + 1)) by lia.
        destruct (func (val (v (get d x)))); [rewrite <- app_assoc|]; reflexivity.
      * exists x. split; [lia|]. split; [intros; lia|]. split; [intros; assumption|].
        destruct (Z.ltb_spec x cnt); [|lia].
        rewrite Z.sub_diag. simpl. rewrite app_nil_r. reflexivity.
Qed.

Lemma filter_none {A : Type} (f : A -> bool) (l : list A) :
  (forall a, In a l -> f a = false) -> List.filter f l = [].
Proof.
  induction l as [|a l IH]; intros H; [reflexivity|]. simpl.
  rewrite (H a) by (left; reflexivity). apply IH. intros b Hb. apply H. right. assumption.
Qed.

Lemma filter_all {A : Type} (f : A -> bool) (l : list A) :
  (forall a, In a l -> f a = true) -> List.filter f l = l.
Proof.
  induction l as [|a l IH]; intros H; [reflexivity|]. simpl.
  rewrite (H a) by (left; reflexivity). f_equal. apply IH.
  intros b Hb. apply H. right. assumption.
Qed.

Lemma in_map_seqZ (d : list value_tuple) (e : value_tuple) m n :
  In e (map (get d) (seqZ m n)) -> exists j, m <= j < m + n /\ e = get d j.
Proof.
  intros H. apply in_map_iff in H. destruct H as (j & <- & Hj).
  exists j. split; [|reflexivity].
  apply list_elem_of_In in Hj. apply elem_of_seqZ in Hj. lia.
Qed.

(** The entries with key [k] among the first [c] of a key-sorted array
    are those from the lower bound [pos] up to the end [e] of the run
    that [scan_block] walks. *)
Lemma filter_key_run (d : list value_tuple) k c pos e :
  key_sorted_range d 0 c -> (Z.to_nat c <= length d)%nat ->
  0 <= pos <= e -> e <= c ->
  (forall j, 0 <= j < pos -> 0 < k_comp k (key (v (get d j)))) ->
  (forall j, pos <= j < c -> k_comp k (key (v (get d j))) <= 0) ->
  (forall j, pos <= j < e -> has_key k (get d j) = true) ->
  (e < c -> has_key k (get d e) = false) ->
  List.filter (has_key k) (take (Z.to_nat c) d) = map (get d) (seqZ pos (e - pos)).
Proof.
  intros Hs Hlen Hpos He Hlo Hhi Hrun Hstop.
  rewrite take_as_seqZ by lia.
  replace c with (pos + ((e - pos) + (c - e))) at 1 by lia.
  rewrite (seqZ_app 0 pos) by lia. rewrite (seqZ_app (0 + pos)) by lia.
  rewrite !map_app, !List.filter_app. simpl.
  rewrite (filter_none _ (map (get d) (seqZ 0 pos))).
  2:{ intros a Ha. apply in_map_seqZ in Ha. destruct Ha as (j & Hj & ->).
      unfold has_key. apply Z.eqb_neq. specialize (Hlo j ltac:(lia)). lia. }
  rewrite (filter_all _ (map (get d) (seqZ pos (e - pos)))).
  2:{ intros a Ha. apply in_map_seqZ in Ha. destruct Ha as (j & Hj & ->).
      apply Hrun. lia. }
  rewrite (filter_none _ (map (get d) (seqZ (pos + (e - pos)) (c - e)))).
  2:{ intros a Ha. apply in_map_seqZ in Ha. destruct Ha as (j & Hj & ->).
      unfold has_key. apply Z.eqb_neq.
      assert (He' : e < c) by lia. specialize (Hstop He').
      unfold has_key in Hstop. apply Z.eqb_neq in Hstop.
      pose proof (Hhi e ltac:(lia)) as Hle.
      destruct (Z.eq_dec j e) as [->|Hje]; [assumption|].
      assert (Hlt : k_comp k (key (v (get d e))) < 0) by lia.
      assert (Hej : 0 <= k_comp (key (v (get d j))) (key (v (get d e))))
        by (apply Hs; lia).
      pose proof (key_lt_le k _ _ Hlt Hej). lia. }
  rewrite app_nil_r. reflexivity.
Qed.

Lemma find_leaf_single t (k : key_t) fuel :
  state (hdr (root t)) = 0 -> count (hdr (root t)) = 1 ->
  is_inner (head (get (data (root t)) 0)) = false ->
  find_leaf (S fuel) t (hdr (root t)) k = Ok (head (get (data (root t)) 0), t).
Proof.
  intros Hst Hc Hleaf.
  assert (Hin : is_inner (hdr (root t)) = true) by (unfold is_inner; rewrite Hst; reflexivity).
  assert (Hp : get_pointer (hdr (root t)) = 0)
    by (unfold get_pointer, real_index; rewrite Hst; reflexivity).
  simpl. rewrite Hin. simpl. rewrite Hp, Hc. simpl.
  change (deref t 0) with (root t).
  destruct fuel; simpl; rewrite Hleaf; reflexivity.
Qed.

Lemma find_if_leaf_run t (k : key_t) (func : T -> bool) (out : list T) (fuel : nat) :
  let h := head (get (data (root t)) 0) in
  let leaf := deref t (get_pointer h) in
  state (hdr (root t)) = 0 -> count (hdr (root t)) = 1 ->
  is_inner h = false -> next leaf = MAXN_SIZE ->
  0 <= count h < 2 ^ 30 -> (Z.to_nat (count h) <= length (data leaf))%nat ->
  key_sorted_range (data leaf) 0 (count h) ->
  find_if (S fuel) t k out func
  = Ok (out ++ List.filter func
                 (map (fun e => val (v e))
                      (List.filter (has_key k) (take (Z.to_nat (count h)) (data leaf)))),
        t).
Proof.
  intros h leaf Hst Hc Hleaf Hnext Hcnt Hlen Hs.
  unfold find_if, empty. rewrite Hc. simpl Z.eqb. cbv iota.
  rewrite find_leaf_single by assumption. simpl. fold h. fold leaf.
  unfold lower_bound.
  destruct (lower_bound_loop_spec (data leaf) k 0 (count h) Hs ltac:(lia)
              (Z.to_nat (count h - 0)) 0 (count h))
    as (pos & -> & Hpos & Hlo & Hhi); try lia.
  simpl.
  destruct (scan_block_spec (data leaf) k func (count h) (Z.to_nat (count h - pos))
              pos out ltac:(lia) ltac:(lia)) as (e & He & Hrun & Hstop & ->).
  simpl.
  rewrite (filter_key_run (data leaf) k (count h) pos e) by (assumption || lia).
  rewrite map_map.
  destruct (e <? count h); [reflexivity|].
  destruct fuel; simpl; fold leaf; rewrite Hnext; reflexivity.
Qed.

(** X14: [find_if] on a tree whose root has one son, a leaf that is the last
    of its level and whose keys never descend: the list is extended by
    the values of exactly the pairs of the leaf that carry the key [k]
    and satisfy [func], in the order of the leaf, and the tree is left
    as it was. *)
Theorem find_if_single_leaf t (k : key_t) (func : T -> bool) (out : list T) (fuel : nat) :
  let h := head (get (data (root t)) 0) in
  let leaf := deref t (get_pointer h) in
  state (hdr (root t)) = 0 -> count (hdr (root t)) = 1 ->
  is_inner h = false -> next leaf = MAXN_SIZE ->
  0 <= count h < 2 ^ 30 -> (Z.to_nat (count h) <= length (data leaf))%nat ->
  key_sorted_range (data leaf) 0 (count h) ->
  find_if (S fuel) t k out func
  = Ok (out ++ List.filter func
                 (map (fun e => val (v e))
                      (List.filter (has_key k) (take (Z.to_nat (count h)) (data leaf)))),
        t).
Proof. apply find_if_leaf_run. Qed.

(** X15: The iterator overload of [find] on such a tree: the iterator stands
    at the first pair of the leaf whose key is not below [k], whether or
    not that key is [k], and is invalid only if every key of the leaf is
    below [k]. *)
Theorem find_iterator_single_leaf t (k : key_t) (fuel : nat) :
  let h := head (get (data (root t)) 0) in
  let p := get_pointer h in
  let leaf := deref t p in
  state (hdr (root t)) = 0 -> count (hdr (root t)) = 1 ->
  is_inner h = false -> next leaf = MAXN_SIZE -> count (hdr leaf) = count h ->
  0 <= count h < 2 ^ 30 ->
  key_sorted_range (data leaf) 0 (count h) ->
  exists pos, 0 <= pos <= count h
    /\ (forall j, 0 <= j < pos -> 0 < k_comp k (key (v (get (data leaf) j))))
    /\ (forall j, pos <= j < count h -> k_comp k (key (v (get (data leaf) j))) <= 0)
    /\ find_iterator (S fuel) t k
       = Ok (Iterator (Some p) (if pos =? count h then -1 else pos), t).
Proof.
  intros h p leaf Hst Hc Hleaf Hnext Hown Hcnt Hs.
  unfold find_iterator, empty. rewrite Hc. simpl Z.eqb. cbv iota.
  rewrite find_leaf_single by assumption. simpl. fold h. fold p. fold leaf.
  unfold lower_bound.
  destruct (lower_bound_loop_spec (data leaf) k 0 (count h) Hs ltac:(lia)
              (Z.to_nat (count h - 0)) 0 (count h))
    as (pos & -> & Hpos & Hlo & Hhi); try lia.
  exists pos. split; [lia|]. split; [assumption|]. split; [assumption|].
  simpl. destruct (Z.eqb_spec pos (count h)) as [->|Hne]; [|reflexivity].
  unfold iterator_next. simpl. fold leaf.
  replace (count h - 1 + 1) with (count h) by lia.
  rewrite Hown, Z.eqb_refl, Hnext. reflexivity.
Qed.

End Query.



(** * The first pair of a tree: insertion into an empty tree, and back *)

Section Root.

Context {key_t T : Type} `{Inst : Instantiation key_t T} {Law : Lawful Inst}.

Local Abbreviation value_pair := (@value_pair key_t T).
Local Abbreviation value_tuple := (@value_tuple key_t T).
Local Abbreviation node := (@node key_t T).
Local Abbreviation tree := (@tree key_t T).

Implicit Types t : tree.

Lemma allocate_lists t nw t0 :
  allocate t = Ok (nw, t0) ->
  (free_list t = nw :: free_list t0 /\ next_block t0 = next_block t)
  \/ (free_list t = [] /\ free_list t0 = [] /\ nw = next_block t
      /\ next_block t0 = next_block t + 1).
Proof.
  unfold allocate. intros H. destruct (free_list t) as [|i rest].
  - destruct (next_block t <? MAXN_SIZE); [|discriminate].
    injection H as <- <-. right. auto.
  - injection H as <- <-. left. auto.
Qed.

Lemma insert_root_result t (k : key_t) (x : T) p t0 :
  allocate t = Ok (p, t0) -> p <> 0 ->
  exists t', insert_root t k x = Ok t'
    /\ deref t' 0
       = Node (Header (state (hdr (root t))) 1)
              (set (data (root t)) 0 (ValueTuple (Header (Z.lnot p) 1) (ValuePair k x)))
    /\ deref t' p
       = Node (Header (Z.lnot MAXN_SIZE) 1)
              (set_pair (data zero_node) 0 (ValuePair k x))
    /\ (forall b, b <> 0 -> b <> p -> deref t' b = deref t b)
    /\ free_list t' = free_list t0 /\ next_block t' = next_block t0
    /\ cache_pointer t' = cache_pointer t.
Proof.
  intros Hal Hp.
  destruct (allocate_result t p t0 Hal Hp) as (Hz & Ho & Hcp & Hr).
  assert (D0 : deref t0 0 = root t) by (rewrite Ho by congruence; reflexivity).
  unfold insert_root. rewrite Hal. simpl.
  eexists. split; [reflexivity|].
  tree_simpl. simpl. tree_simpl. rewrite Hz, D0. simpl.
  repeat split; try assumption.
  intros b Hb0 Hbp. tree_simpl. apply Ho. assumption.
Qed.

Lemma length_zero_data_pos : (1 <= length (data (@zero_node key_t T Inst)))%nat.
Proof. rewrite length_zero_data. pose proof block_size_min. lia. Qed.

Lemma binary_search_single (d : list value_tuple) (k : key_t) (x : T) :
  v (get d 0) = ValuePair k x -> binary_search d k x 0 1 = Ok (Z.lnot 0).
Proof.
  intros Hd.
  assert (Hs : sorted_range d 0 1) by (intros i j; lia).
  destruct (binary_search_spec d k x 0 1 Hs ltac:(lia) ltac:(lia))
    as (res & Hres & [(Hb & Hlo & Hhi)|(m & -> & Hm & _)]).
  - exfalso. destruct (Z.eq_dec res 0) as [->|Hne].
    + specialize (Hhi 0 ltac:(lia)). rewrite Hd in Hhi. exact (p_lt_irrefl _ Hhi).
    + specialize (Hlo 0 ltac:(lia)). rewrite Hd in Hlo. exact (p_lt_irrefl _ Hlo).
  - rewrite Hres. replace m with 0 by lia. reflexivity.
Qed.

(** X16: [insert] into an empty tree never descends: it allocates one block
    for a leaf, stores the pair as the leaf's only entry and as the
    root's only entry, which names the new block as a leaf holding one
    pair; the leaf is the last of its level; the tree is no longer
    empty, and no other block is written. *)
Theorem insert_into_empty t (k : key_t) (x : T) (fuel : nat) p t0 :
  empty t = true -> allocate t = Ok (p, t0) -> 0 < p ->
  (1 <= length (data (root t)))%nat ->
  exists t', insert fuel t k x = Ok t'
    /\ empty t' = false
    /\ hdr (root t') = Header (state (hdr (root t))) 1
    /\ get (data (root t')) 0 = ValueTuple (Header (Z.lnot p) 1) (ValuePair k x)
    /\ is_inner (head (get (data (root t')) 0)) = false
    /\ get_pointer (head (get (data (root t')) 0)) = p
    /\ count (hdr (deref t' p)) = 1
    /\ v (get (data (deref t' p)) 0) = ValuePair k x
    /\ is_inner (hdr (deref t' p)) = false
    /\ next (deref t' p) = MAXN_SIZE
    /\ (forall b, b <> 0 -> b <> p -> deref t' b = deref t b).
Proof.
  intros He Hal Hp Hlen.
  destruct (insert_root_result t k x p t0 Hal ltac:(lia))
    as (t' & Hrun & Hroot & Hleaf & Hframe & _).
  exists t'. unfold insert. rewrite He. split; [exact Hrun|].
  unfold empty. rewrite !root_deref, Hroot, Hleaf. simpl.
  assert (Hg : get (set (data (root t)) 0 (ValueTuple (Header (Z.lnot p) 1) (ValuePair k x))) 0
               = ValueTuple (Header (Z.lnot p) 1) (ValuePair k x))
    by (apply get_set_eq; lia).
  rewrite Hg. simpl.
  pose proof (lnot_nonneg_neg p ltac:(lia)) as Hneg.
  refine (conj eq_refl (conj eq_refl (conj eq_refl (conj _ (conj _ (conj eq_refl
           (conj _ (conj eq_refl (conj _ Hframe))))))))).
  - unfold is_inner. simpl. apply Z.leb_gt. assumption.
  - unfold get_pointer, real_index. simpl.
    destruct (Z.ltb_spec (Z.lnot p) 0); [apply lnot_lnot|lia].
  - rewrite get_set_pair_eq
      by (rewrite ?length_replicate; pose proof block_size_min; lia).
    reflexivity.
  - unfold next, real_index. simpl. reflexivity.
Qed.

(** X17: A pair inserted into an empty tree is found again: [find] for its
    key appends its value, and nothing else, to the list. *)
Theorem insert_then_find t (k : key_t) (x : T) (fuel fuel' : nat) p t0 (out : list T) :
  empty t = true -> state (hdr (root t)) = 0 ->
  allocate t = Ok (p, t0) -> 0 < p ->
  (1 <= length (data (root t)))%nat ->
  exists t', insert fuel t k x = Ok t'
    /\ find (S fuel') t' k out = Ok (out ++ [x], t').
Proof.
  intros He Hst Hal Hp Hlen.
  destruct (insert_root_result t k x p t0 Hal ltac:(lia))
    as (t' & Hrun & Hroot & Hleaf & Hframe & _).
  exists t'. unfold insert. rewrite He. split; [exact Hrun|].
  change (deref t' 0) with (root t') in Hroot.
  assert (Hg : get (data (root t')) 0 = ValueTuple (Header (Z.lnot p) 1) (ValuePair k x)).
  { rewrite Hroot. simpl. apply get_set_eq; lia. }
  pose proof (lnot_nonneg_neg p ltac:(lia)) as Hneg.
  assert (Hptr : get_pointer (head (get (data (root t')) 0)) = p).
  { rewrite Hg. unfold get_pointer, real_index. simpl.
    destruct (Z.ltb_spec (Z.lnot p) 0); [apply lnot_lnot|lia]. }
  assert (Hl0 : get (data (deref t' p)) 0
                = ValueTuple (head (get (data zero_node) 0)) (ValuePair k x)).
  { rewrite Hleaf. simpl. apply get_set_pair_eq; [lia|].
    rewrite length_replicate. pose proof block_size_min. lia. }
  assert (Hll : (1 <= length (data (deref t' p)))%nat).
  { rewrite Hleaf. simpl. rewrite length_set_pair, length_replicate.
    pose proof block_size_min. lia. }
  unfold find. rewrite find_if_leaf_run.
  - rewrite Hptr, Hg. simpl count.
    rewrite (take_as_seqZ _ 1) by lia.
    change (seqZ 0 1) with [0]. simpl. rewrite Hl0. unfold has_key. simpl.
    rewrite k_comp_refl. reflexivity.
  - rewrite Hroot. assumption.
  - rewrite Hroot. reflexivity.
  - rewrite Hg. unfold is_inner. simpl. apply Z.leb_gt. assumption.
  - rewrite Hptr, Hleaf. reflexivity.
  - rewrite Hg. simpl. lia.
  - rewrite Hptr, Hg. simpl. assumption.
  - intros i j. rewrite Hg. simpl. lia.
Qed.

Lemma erase_inner_S fuel t r (k : key_t) (x : T) :
  erase_inner (S fuel) t r k x
  = if negb (is_inner (read_head t r)) then erase_outer t r k x else
    let pointer := get_pointer (read_head t r) in
    pos ← binary_search (data (deref t pointer)) k x 0 (count (read_head t r));
    if pos =? 0 then Ok (false, t) else
    let '(pos, flag) := if 0 <? pos then (pos - 1, false) else (Z.lnot pos, true) in
    '(changed, t) ← erase_inner fuel t (HEntry pointer pos) k x;
    if negb changed then Ok (false, t) else
    let t := modify t pointer in
    let t := if flag
             then upd t pointer (fun n =>
                    with_data n (set_pair (data n) pos
                                   (v (get (data (deref t (cache_pointer t))) 0))))
             else t in
    if MERGE_SIZE P <? count (hdr (deref t (cache_pointer t)))
    then Ok (flag && (pos =? 0), t) else
    let '(done, t) := erase_amortize t pointer pos in
    if done then Ok (flag && (pos =? 0), t) else
    let t := erase_merge t pointer pos in
    let t := upd t pointer (fun n => with_count n (count (hdr n) - 1)) in
    let t := write_head_count t r (count (hdr (deref t pointer))) in
    Ok (true, set_cache_pointer t pointer).
Proof. reflexivity. Qed.

(** X18: Erasing the only pair of a tree empties it again: the root's count
    returns to 0 and the leaf's block goes back to the free list. *)
Theorem insert_then_erase t (k : key_t) (x : T) (fuel fuel' : nat) p t0 :
  empty t = true -> state (hdr (root t)) = 0 ->
  allocate t = Ok (p, t0) -> 0 < p ->
  (1 <= length (data (root t)))%nat ->
  exists t' t'', insert fuel t k x = Ok t'
    /\ erase (S (S fuel')) t' k x = Ok t''
    /\ empty t'' = true
    /\ hdr (root t'') = hdr (root t)
    /\ free_list t'' = p :: free_list t0
    /\ next_block t'' = next_block t0.
Proof.
  intros He Hst Hal Hp Hlen.
  destruct (insert_root_result t k x p t0 Hal ltac:(lia))
    as (t' & Hrun & Hroot & Hleaf & Hframe & Hfl & Hnb & _).
  exists t'. unfold insert. rewrite He.
  change (deref t' 0) with (root t') in Hroot.
  assert (Hg : get (data (root t')) 0 = ValueTuple (Header (Z.lnot p) 1) (ValuePair k x)).
  { rewrite Hroot. simpl. apply get_set_eq; lia. }
  pose proof (lnot_nonneg_neg p ltac:(lia)) as Hneg.
  assert (Hptr : get_pointer (head (get (data (root t')) 0)) = p).
  { rewrite Hg. unfold get_pointer, real_index. simpl.
    destruct (Z.ltb_spec (Z.lnot p) 0); [apply lnot_lnot|lia]. }
  assert (Hl0 : v (get (data (deref t' p)) 0) = ValuePair k x).
  { rewrite Hleaf. simpl. rewrite get_set_pair_eq; [reflexivity|lia|].
    rewrite length_replicate. pose proof block_size_min. lia. }
  assert (Hin : is_inner (hdr (root t')) = true)
    by (rewrite Hroot; unfold is_inner; simpl; rewrite Hst; reflexivity).
  assert (Hp0 : get_pointer (hdr (root t')) = 0)
    by (rewrite Hroot; unfold get_pointer, real_index; simpl; rewrite Hst; reflexivity).
  assert (Hc1 : count (hdr (root t')) = 1) by (rewrite Hroot; reflexivity).
  assert (Hleafk : is_inner (head (get (data (root t')) 0)) = false).
  { rewrite Hg. unfold is_inner. simpl. apply Z.leb_gt. assumption. }
  (* the leaf level *)
  destruct (erase_outer_result t' 0 0 k x 0) as (t1 & Hrun1 & Hleaf1 & Hroot1 & Hcp1 & Hfr1).
  { change (deref t' 0) with (root t'). rewrite Hptr. lia. }
  { change (deref t' 0) with (root t'). rewrite Hptr, Hg. simpl.
    apply binary_search_single. assumption. }
  { lia. }
  change (deref t' 0) with (root t') in Hleaf1, Hroot1, Hcp1, Hrun1.
  rewrite Hptr in Hleaf1, Hroot1, Hcp1. rewrite Hleaf in Hleaf1, Hroot1.
  simpl in Hleaf1, Hroot1.
  assert (Hrun1' : erase_inner (S fuel') t' (HEntry 0 0) k x = Ok (true, t1)).
  { rewrite erase_inner_S.
    change (read_head t' (HEntry 0 0)) with (head (get (data (root t')) 0)).
    rewrite Hleafk. exact Hrun1. }
  (* the root level *)
  unfold erase, empty. rewrite Hc1. simpl negb. cbv iota.
  remember (erase_inner (S (S fuel')) t' HRoot k x) as r1 eqn:Hev. symmetry in Hev.
  rewrite erase_inner_S in Hev.
  change (read_head t' HRoot) with (hdr (root t')) in Hev.
  rewrite Hin in Hev. simpl negb in Hev. cbv iota in Hev.
  name_stages Hev. unfold s in Hev. clear s. rewrite Hp0 in Hev.
  change (deref t' 0) with (root t') in Hev.
  rewrite Hc1, (binary_search_single (data (root t')) k x) in Hev
    by (rewrite Hg; reflexivity).
  cbv beta iota delta [mbind result_bind rbind] in Hev.
  change (Z.lnot 0 =? 0) with false in Hev. change (0 <? Z.lnot 0) with false in Hev.
  cbv beta iota in Hev. change (Z.lnot (Z.lnot 0)) with 0 in Hev.
  rewrite Hrun1' in Hev.
  cbv beta iota delta [mbind result_bind rbind negb] in Hev.
  set (s1 := upd (modify t1 0) 0 _) in Hev.
  assert (Hcs : cache_pointer s1 = p) by (unfold s1; tree_simpl; exact Hcp1).
  assert (Ds1p : deref s1 p = deref t1 p) by (unfold s1; tree_simpl; reflexivity).
  assert (Ds1c : count (hdr (deref s1 0)) = 1).
  { unfold s1. tree_simpl. simpl. rewrite Hroot1. simpl. exact Hc1. }
  assert (Ds1s : state (hdr (deref s1 0)) = state (hdr (root t))).
  { unfold s1. tree_simpl. simpl. rewrite Hroot1. simpl. rewrite Hroot. reflexivity. }
  assert (Hmerge : 0 <= MERGE_SIZE P).
  { rewrite merge_default. pose proof block_size_min. apply Z.quot_pos; lia. }
  rewrite Hcs, Ds1p, Hleaf1 in Hev. simpl count in Hev.
  destruct (Z.ltb_spec (MERGE_SIZE P) (1 - 1)) as [|_]; [lia|].
  assert (Ham : erase_amortize s1 0 0 = (false, s1)).
  { unfold erase_amortize. rewrite Ds1c. reflexivity. }
  rewrite Ham in Hev.
  assert (Hem : erase_merge s1 0 0 = recycle s1 p).
  { unfold erase_merge. rewrite Ds1c, Hcs, Ds1p, Hleaf1. reflexivity. }
  rewrite Hem in Hev.
  subst r1. eexists. split; [exact Hrun|]. split; [reflexivity|].
  destruct (erase_outer_lists _ _ _ _ _ _ Hrun1) as (Hfl1 & Hnb1).
  unfold write_head_count, empty. rewrite !root_deref. tree_simpl. simpl.
  change (deref (modify t1 0) 0) with (deref t1 0).
  rewrite Hroot1, Hroot, Hfl1, Hnb1, Hfl, Hnb. simpl.
  refine (conj eq_refl (conj _ (conj eq_refl eq_refl))).
  change (deref t 0) with (root t).
  unfold empty in He. apply Z.eqb_eq in He.
  destruct (hdr (root t)) as [st c0]. simpl in He |- *. subst c0. reflexivity.
Qed.

End Root.



(** * The theorems at concrete inputs *)

(** A premise at a concrete input is settled by evaluation. *)
Ltac at_input :=
  repeat match goal with H : _ |- _ => clear H end;
  vm_compute; repeat split;
  first [ reflexivity | discriminate | lia | (intros; first [discriminate | lia]) ].

(** An equation of a theorem, up to evaluation of its two sides. *)
Ltac from_thm H :=
  etransitivity; [|etransitivity; [exact H|]]; vm_compute; reflexivity.

Lemma small_lawful : Lawful Demo.small.
Proof.
  split.
  - split; unfold k_comp; simpl; unfold Demo.z_comp; intros; lia.
  - split; unfold v_comp; simpl; unfold Demo.z_comp; intros; lia.
  - vm_compute. discriminate.
  - reflexivity.
  - reflexivity.
  - reflexivity.
Qed.

Lemma three_entries_sorted : sorted_range Demo.three_entries 0 3.
Proof.
  intros i j Hi Hij Hj.
  assert (i = 0 \/ i = 1) as [-> | ->] by lia;
    (assert (j = 1 \/ j = 2) as [-> | ->] by lia); try lia; reflexivity.
Qed.

Lemma binary_search_correct_witness :
  binary_search Demo.three_entries 2 5 0 3 = Ok (Z.lnot 1).
Proof.
  apply (binary_search_correct (Law := small_lawful) Demo.three_entries 2 5 0 3
           three_entries_sorted ltac:(lia) ltac:(lia)); [lia | reflexivity].
Defined.

Lemma insert_amortize_choice_witness :
  let t := Demo.tie_overfull in
  let t' := snd (insert_amortize t 0 1) in
  fst (insert_amortize t 0 1) = true
  /\ count (hdr (deref t' 1)) = 5 + 3
  /\ count (hdr (deref t' 2)) = 11 - 3
  /\ deref t' 3 = deref t 3
  /\ items (deref t' 1) = items (deref t 1) ++ take 3 (items (deref t 2))
  /\ items (deref t' 2) = drop 3 (items (deref t 2)).
Proof.
  pose proof (insert_amortize_choice Demo.tie_overfull 0 1) as H.
  cbv zeta in H.
  destruct H as (H1 & _ & H3); [at_input..|].
  destruct H3 as (H3 & H4 & H5 & H6); [at_input|].
  destruct H6 as (H6 & H7); [at_input..|].
  cbv zeta. split; [exact H1|].
  split; [from_thm H3|]. split; [from_thm H4|]. split; [from_thm H5|].
  split; [from_thm H6|from_thm H7].
Defined.

(** ** Searches by key *)

Lemma three_entries_key_sorted : key_sorted_range Demo.three_entries 0 3.
Proof. apply (key_sorted_rangeb_sound (Law := small_lawful)). reflexivity. Qed.

Lemma lower_bound_correct_witness :
  exists i, lower_bound Demo.three_entries 2 0 3 = Ok i /\ 0 <= i <= 3
    /\ (forall j, 0 <= j < i -> 0 < k_comp 2 (key (v (get Demo.three_entries j))))
    /\ (forall j, i <= j < 3 -> k_comp 2 (key (v (get Demo.three_entries j))) <= 0).
Proof.
  apply (lower_bound_correct (Law := small_lawful) Demo.three_entries 2 0 3
           three_entries_key_sorted); lia.
Defined.

Lemma upper_bound_correct_witness :
  exists i, upper_bound Demo.three_entries 1 0 3 = Ok i /\ 0 <= i <= 3
    /\ (forall j, 0 <= j < i -> 0 <= k_comp 1 (key (v (get Demo.three_entries j))))
    /\ (forall j, i <= j < 3 -> k_comp 1 (key (v (get Demo.three_entries j))) < 0).
Proof.
  apply (upper_bound_correct (Law := small_lawful) Demo.three_entries 1 0 3
           three_entries_key_sorted); lia.
Defined.

Lemma bounds_enclose_key_witness :
  exists lo up, lower_bound Demo.three_entries 2 0 3 = Ok lo
    /\ upper_bound Demo.three_entries 2 0 3 = Ok up
    /\ 0 <= lo <= up /\ up <= 3
    /\ forall j, 0 <= j < 3 -> (lo <= j < up <-> key (v (get Demo.three_entries j)) = 2).
Proof.
  apply (bounds_enclose_key (Law := small_lawful) Demo.three_entries 2 0 3
           three_entries_key_sorted); lia.
Defined.

(** ** Entries moved between nodes *)

Lemma amortize_next_entries_witness :
  let t := Demo.tie_tree in
  let t' := amortize_next t 1 2 in
  items (deref t' 1) = items (deref t 1) ++ take 2 (items (deref t 2))
  /\ items (deref t' 2) = drop 2 (items (deref t 2))
  /\ count (hdr (deref t' 1)) = 7 /\ count (hdr (deref t' 2)) = 8.
Proof.
  pose proof (amortize_next_entries Demo.tie_tree 1 2) as H. cbv zeta in H.
  destruct H as (H1 & H1' & H2 & H3 & _); [at_input..|].
  cbv zeta. split; [from_thm H1|]. split; [from_thm H1'|].
  split; [from_thm H2|from_thm H3].
Defined.

Lemma amortize_prev_entries_witness :
  let t := Demo.tie_tree in
  let t' := amortize_prev t 2 3 in
  items (deref t' 2) = take 8 (items (deref t 2))
  /\ items (deref t' 3) = drop 8 (items (deref t 2)) ++ items (deref t 3)
  /\ count (hdr (deref t' 2)) = 8 /\ count (hdr (deref t' 3)) = 7.
Proof.
  pose proof (amortize_prev_entries Demo.tie_tree 2 3) as H. cbv zeta in H.
  destruct H as (H1 & H1' & H2 & H3 & _); [at_input..|].
  cbv zeta. split; [from_thm H1|]. split; [from_thm H1'|].
  split; [from_thm H2|from_thm H3].
Defined.

Lemma merge_node_entries_witness :
  let t := Demo.thin_tree in
  let t' := merge_node t 1 2 in
  items (deref t' 1) = items (deref t 1) ++ items (deref t 2)
  /\ free_list t' = 2 :: free_list t.
Proof.
  pose proof (merge_node_entries Demo.thin_tree 1 2) as H. cbv zeta in H.
  destruct H as (H1 & _ & _ & _ & H5 & _); [at_input..|].
  cbv zeta. split; [exact H1|from_thm H5].
Defined.

Lemma erase_amortize_choice_witness :
  let t := Demo.wide_tree in
  let t' := snd (erase_amortize t 0 1) in
  fst (erase_amortize t 0 1) = true
  /\ count (hdr (deref t' 3)) = 10 - 2
  /\ count (hdr (deref t' 2)) = 6 + 2
  /\ items (deref t' 2) = items (deref t 2) ++ take 2 (items (deref t 3))
  /\ items (deref t' 3) = drop 2 (items (deref t 3)).
Proof.
  pose proof (erase_amortize_choice Demo.wide_tree 0 1) as H. cbv zeta in H.
  destruct H as (H1 & _ & H3); [at_input..|].
  destruct H3 as (H3 & H4 & _ & _ & _ & _ & H8); [at_input|].
  destruct H8 as (H8 & H9); [at_input..|].
  cbv zeta. split; [exact H1|]. split; [from_thm H3|]. split; [from_thm H4|].
  split; [from_thm H8|from_thm H9].
Defined.


(** ** Splits, and the merge of the root's sons *)

Lemma split_node_entries_witness :
  exists t', split_node Demo.tie_overfull 0 1 = Ok t'
    /\ items (deref t' 2) ++ items (deref t' 4) = items (deref Demo.tie_overfull 2)
    /\ count (hdr (deref t' 2)) = 6 /\ count (hdr (deref t' 4)) = 5
    /\ next (deref t' 2) = 4.
Proof.
  pose proof (split_node_entries Demo.tie_overfull 0 1 4
                (Demo.allocated Demo.tie_overfull)) as H.
  cbv zeta in H.
  destruct H as (t' & H0 & H1 & H2 & H3 & H4 & _); [at_input..|].
  exists t'. split; [exact H0|].
  split; [from_thm H1|]. split; [from_thm H2|]. split; [from_thm H3|from_thm H4].
Defined.

Lemma split_root_entries_witness :
  exists t', split_root Demo.root_overfull = Ok t'
    /\ items (deref t' 12) ++ items (deref t' 13) = items (root Demo.root_overfull)
    /\ hdr (deref t' 12) = Header 13 5
    /\ hdr (deref t' 13) = Header MAXN_SIZE 6
    /\ count (hdr (root t')) = 2.
Proof.
  pose proof (split_root_entries Demo.root_overfull 12 13
                (Demo.allocated Demo.root_overfull)
                (Demo.allocated (Demo.allocated Demo.root_overfull))) as H.
  cbv zeta in H.
  destruct H as (t' & H0 & H1 & H2 & H3 & H4 & _); [at_input..|].
  exists t'. split; [exact H0|].
  split; [from_thm H1|]. split; [from_thm H2|]. split; [from_thm H3|].
  rewrite H4. reflexivity.
Defined.

Lemma merge_root_entries_witness :
  let t := Demo.tall_tree in
  let t' := merge_root t 0 in
  take 11 (data (root t')) = items (deref t 12) ++ items (deref t 13)
  /\ count (hdr (root t')) = 12
  /\ free_list t' = 13 :: 12 :: free_list t.
Proof.
  pose proof (merge_root_entries Demo.tall_tree 0) as H. cbv zeta in H.
  destruct H as (H1 & H2 & H3 & _); [at_input..|].
  cbv zeta. split; [from_thm H1|]. split; [rewrite H2; vm_compute; reflexivity|].
  from_thm H3.
Defined.

(** ** Leaves *)

Lemma insert_outer_sorted_witness :
  insert_outer Demo.tie_tree (HEntry 0 1) 70 0 = Ok (false, Demo.tie_tree)
  /\ exists t' pos, insert_outer Demo.tie_tree (HEntry 0 1) 75 0 = Ok (true, t')
       /\ 0 <= pos <= 10
       /\ v (get (data (deref t' 2)) pos) = ValuePair 75 0
       /\ sorted_range (data (deref t' 2)) 0 11
       /\ cache_pointer t' = 2.
Proof.
  split.
  - pose proof (insert_outer_sorted (Law := small_lawful) Demo.tie_tree 0 1 70 0) as H.
    cbv zeta in H.
    destruct H as (H1 & _);
      [at_input.. | apply (sorted_rangeb_sound (Law := small_lawful)); at_input |].
    apply H1. exists 0. at_input.
  - pose proof (insert_outer_sorted (Law := small_lawful) Demo.tie_tree 0 1 75 0) as H.
    cbv zeta in H.
    destruct H as (_ & H2);
      [at_input.. | apply (sorted_rangeb_sound (Law := small_lawful)); at_input |].
    destruct H2 as (t' & pos & H0 & Hp & _ & Hat & _ & Hs & _ & _ & Hc & _).
    { apply (absent_check (Law := small_lawful)). at_input. }
    exists t', pos. split; [exact H0|]. split; [exact Hp|].
    split; [exact Hat|]. split; [exact Hs|exact Hc].
Defined.

Lemma erase_outer_sorted_witness :
  erase_outer Demo.tie_tree (HEntry 0 1) 75 0 = Ok (false, Demo.tie_tree)
  /\ exists t', erase_outer Demo.tie_tree (HEntry 0 1) 70 0 = Ok (true, t')
       /\ sorted_range (data (deref t' 2)) 0 9
       /\ hdr (deref t' 2) = Header (state (hdr (deref Demo.tie_tree 2))) 9
       /\ cache_pointer t' = 2.
Proof.
  pose proof (erase_outer_sorted (Law := small_lawful) Demo.tie_tree 0 1 75 0) as H.
  pose proof (erase_outer_sorted (Law := small_lawful) Demo.tie_tree 0 1 70 0) as H'.
  cbv zeta in H, H'.
  split.
  - destruct H as (H1 & _);
      [at_input.. | apply (sorted_rangeb_sound (Law := small_lawful)); at_input |].
    apply H1. apply (absent_check (Law := small_lawful)). at_input.
  - destruct H' as (_ & H2);
      [at_input.. | apply (sorted_rangeb_sound (Law := small_lawful)); at_input |].
    destruct (H2 0) as (t' & H0 & _ & _ & Hs & _ & Hh & _ & Hc & _); [at_input..|].
    exists t'. split; [exact H0|]. split; [exact Hs|]. split; [exact Hh|exact Hc].
Defined.

(** ** Queries *)

Lemma one_leaf_key_sorted :
  key_sorted_range (data (deref Demo.one_leaf 1)) 0 3.
Proof. apply (key_sorted_rangeb_sound (Law := small_lawful)). vm_compute. reflexivity. Qed.

Lemma find_if_single_leaf_witness :
  find_if 1 Demo.one_leaf 20 [] (fun y => 0 <=? y) = Ok ([0], Demo.one_leaf).
Proof.
  etransitivity.
  - apply (find_if_single_leaf (Law := small_lawful) Demo.one_leaf 20 (fun y => 0 <=? y) [] 0);
      try exact one_leaf_key_sorted; at_input.
  - vm_compute. reflexivity.
Defined.

Lemma find_iterator_single_leaf_witness :
  exists pos, 0 <= pos <= 3
    /\ find_iterator 1 Demo.one_leaf 25
       = Ok (Iterator (Some 1) (if pos =? 3 then -1 else pos), Demo.one_leaf).
Proof.
  pose proof (find_iterator_single_leaf (Law := small_lawful) Demo.one_leaf 25 0) as H.
  cbv zeta in H.
  destruct H as (pos & Hp & _ & _ & Hf); try exact one_leaf_key_sorted; [at_input..|].
  exists pos. split; [exact Hp|exact Hf].
Defined.

(** ** The first pair *)

Lemma insert_into_empty_witness :
  exists t', insert 0 init 1 2 = Ok t'
    /\ empty t' = false
    /\ get (data (root t')) 0 = ValueTuple (Header (Z.lnot 1) 1) (ValuePair 1 2)
    /\ v (get (data (deref t' 1)) 0) = ValuePair 1 2.
Proof.
  destruct (insert_into_empty (Law := small_lawful) init 1 2 0 1 (Demo.allocated init))
    as (t' & H0 & H1 & _ & H3 & _ & _ & _ & H7 & _); [at_input..|].
  exists t'. split; [exact H0|]. split; [exact H1|]. split; [exact H3|exact H7].
Defined.

Lemma insert_then_find_witness :
  exists t', insert 0 init 1 2 = Ok t' /\ find 1 t' 1 [] = Ok ([2], t').
Proof.
  apply (insert_then_find (Law := small_lawful) init 1 2 0 0 1 (Demo.allocated init) []);
    at_input.
Defined.

Lemma insert_then_erase_witness :
  exists t' t'', insert 0 init 1 2 = Ok t' /\ erase 2 t' 1 2 = Ok t''
    /\ empty t'' = true.
Proof.
  destruct (insert_then_erase (Law := small_lawful) init 1 2 0 0 1 (Demo.allocated init))
    as (t' & t'' & H0 & H1 & H2 & _); [at_input..|].
  exists t', t''. split; [exact H0|]. split; [exact H1|exact H2].
Defined.
